(** * Codebase indexer: a shallow embedding of [utils.py], [app.py] and
    [watcher.py] of the codebase-indexer service.

    Python [str] values are modelled as lists of Unicode code points
    ([list Z]); [bytes] values as lists of 8-bit integers ([list Z], each in
    [0, 256)).  Repository names and other identifiers that only serve as
    dictionary keys are [string]s.  The external collaborators (the
    tree-sitter parser, the Voyage embedding service, the Qdrant server, the
    file system and the reindex HTTP endpoint seen from the watcher) are
    parameters: pure functions of their arguments, whose failures are
    explicit [option]/[bool] results. *)

From Stdlib Require Import ZArith Lia Ascii.
From stdpp Require Import base list gmap sets strings.

Open Scope Z_scope.

(* ------------------------------------------------------------------ *)
(** ** Python helpers *)

(** [s[a:b]] for a step of 1, with Python's treatment of negative and
    out-of-range bounds. *)
Definition py_slice {A} (s : list A) (a b : Z) : list A :=
  let len := Z.of_nat (length s) in
  let norm (i : Z) := if i <? 0 then Z.max 0 (i + len) else Z.min i len in
  let start := norm a in
  let stop := norm b in
  firstn (Z.to_nat (stop - start)) (skipn (Z.to_nat start) s).

(** [range(i, n, step)] for a positive [step], as the list of its values;
    [fuel] bounds the number of iterations (the caller gives [n]). *)
Fixpoint range_step (fuel : nat) (i n step : nat) : list nat :=
  match fuel with
  | O => []
  | S f => if (i <? n)%nat then i :: range_step f (i + step) n step else []
  end.

(** [range(0, n, step)]: empty for a negative step (Python iterates
    nothing), [None] for a zero step (Python raises [ValueError]). *)
Definition py_range0 (n : nat) (step : Z) : option (list nat) :=
  if step =? 0 then None
  else if step <? 0 then Some []
  else Some (range_step n 0 n (Z.to_nat step)).

(** [for i in range(0, len(xs), bs): xs[i: i + bs]] *)
Definition py_batches {A} (xs : list A) (bs : Z) : option (list (list A)) :=
  match py_range0 (length xs) bs with
  | None => None
  | Some is => Some (map (fun i => py_slice xs (Z.of_nat i) (Z.of_nat i + bs)) is)
  end.

(** [str.isspace] on one code point (the characters [str.strip()] removes). *)
Definition is_space (c : Z) : bool :=
  ((9 <=? c) && (c <=? 13)) || ((28 <=? c) && (c <=? 32)) || (c =? 133)
  || (c =? 160) || (c =? 5760) || ((8192 <=? c) && (c <=? 8202))
  || (c =? 8232) || (c =? 8233) || (c =? 8239) || (c =? 8287) || (c =? 12288).

(** Truthiness of [text.strip()]: some character is not whitespace. *)
Definition strip_nonempty (t : list Z) : bool := existsb (fun c => negb (is_space c)) t.

(* ------------------------------------------------------------------ *)
(** ** UTF-8 and Latin-1 codecs ([bytes.decode], [str.encode]) *)

Definition in_range (lo hi b : Z) : bool := (lo <=? b) && (b <=? hi).
Definition is_cont (b : Z) : bool := in_range 128 191 b.

(** Strict UTF-8 decoding as CPython does it: no overlong forms, no
    surrogates, nothing above U+10FFFF. *)
Fixpoint utf8_decode (bs : list Z) : option (list Z) :=
  match bs with
  | [] => Some []
  | b0 :: r0 =>
    if b0 <=? 127 then cons b0 <$> utf8_decode r0
    else if in_range 194 223 b0 then
      match r0 with
      | b1 :: r1 =>
        if is_cont b1 then
          cons (Z.lor (Z.shiftl (Z.land b0 31) 6) (Z.land b1 63)) <$> utf8_decode r1
        else None
      | [] => None
      end
    else if in_range 224 239 b0 then
      match r0 with
      | b1 :: b2 :: r2 =>
        let ok1 := if b0 =? 224 then in_range 160 191 b1
                   else if b0 =? 237 then in_range 128 159 b1
                   else is_cont b1 in
        if ok1 && is_cont b2 then
          cons (Z.lor (Z.lor (Z.shiftl (Z.land b0 15) 12) (Z.shiftl (Z.land b1 63) 6))
                      (Z.land b2 63)) <$> utf8_decode r2
        else None
      | _ => None
      end
    else if in_range 240 244 b0 then
      match r0 with
      | b1 :: b2 :: b3 :: r3 =>
        let ok1 := if b0 =? 240 then in_range 144 191 b1
                   else if b0 =? 244 then in_range 128 143 b1
                   else is_cont b1 in
        if ok1 && is_cont b2 && is_cont b3 then
          cons (Z.lor (Z.lor (Z.shiftl (Z.land b0 7) 18) (Z.shiftl (Z.land b1 63) 12))
                      (Z.lor (Z.shiftl (Z.land b2 63) 6) (Z.land b3 63))) <$> utf8_decode r3
        else None
      | _ => None
      end
    else None
  end.

(** Latin-1 maps every byte to the code point of the same value: it never
    fails. *)
Definition latin1_decode (bs : list Z) : option (list Z) := Some bs.

Definition utf8_encode_char (c : Z) : list Z :=
  if c <? 128 then [c]
  else if c <? 2048 then
    [Z.lor 192 (Z.shiftr c 6); Z.lor 128 (Z.land c 63)]
  else if c <? 65536 then
    [Z.lor 224 (Z.shiftr c 12); Z.lor 128 (Z.land (Z.shiftr c 6) 63);
     Z.lor 128 (Z.land c 63)]
  else
    [Z.lor 240 (Z.shiftr c 18); Z.lor 128 (Z.land (Z.shiftr c 12) 63);
     Z.lor 128 (Z.land (Z.shiftr c 6) 63); Z.lor 128 (Z.land c 63)].

(** [bytes(s, "utf-8")]; the strings it is applied to come from a strict
    decoder, so they hold no lone surrogate and the encoding cannot fail. *)
Definition utf8_encode (s : list Z) : list Z := concat (map utf8_encode_char s).

(* ------------------------------------------------------------------ *)
(** ** The chunker ([utils.py]: [CodeChunk], [chunk_code_file]) *)

(** [tree_sitter.Point] *)
Record TSPoint := mkTSPoint { row : Z; column : Z }.

Local Set Warnings "-register-all".

(** A tree-sitter syntax node: its type, byte span, position span and
    children. *)
Inductive Node := mkNode {
  node_type : string;
  node_start_byte : Z;
  node_end_byte : Z;
  node_start_point : TSPoint;
  node_end_point : TSPoint;
  node_children : list Node
}.

(** [parser.parse(bytes)] returns the tree; we keep its root node. *)
Definition Parser := list Z -> Node.

Record CodeChunk := mkCodeChunk {
  content : list Z;
  chunk_type : string;
  start_byte : Z;
  end_byte : Z;
  start_point : TSPoint;
  end_point : TSPoint;
  file_path : string
}.

(** [node.type in ["function_definition", "class_definition"]] *)
Definition is_def_node (n : Node) : bool :=
  String.eqb (node_type n) "function_definition" || String.eqb (node_type n) "class_definition".

(** The loop over [tree.root_node.children]. *)
Fixpoint chunk_children (fp : string) (decoded_content : list Z) (nodes : list Node)
  : list CodeChunk :=
  match nodes with
  | [] => []
  | node :: rest =>
    if is_def_node node then
      mkCodeChunk (py_slice decoded_content (node_start_byte node) (node_end_byte node))
        (if String.eqb (node_type node) "function_definition" then "function" else "class")
        (node_start_byte node) (node_end_byte node)
        (node_start_point node) (node_end_point node) fp
      :: chunk_children fp decoded_content rest
    else chunk_children fp decoded_content rest
  end.

(** [content.decode("utf-8")], falling back to [content.decode("latin-1")]. *)
Definition decode_py (content : list Z) : option (list Z) :=
  match utf8_decode content with
  | Some d => Some d
  | None => latin1_decode content
  end.

(** [chunk_code_file(file_path, parser)], the file's bytes being [content]. *)
Definition chunk_code_file (fp : string) (content : list Z) (parser : Parser)
  : list CodeChunk :=
  match decode_py content with
  | None => []
  | Some decoded_content =>
    let root := parser (utf8_encode decoded_content) in
    mkCodeChunk decoded_content "file" 0 (Z.of_nat (length content))
      (node_start_point root) (node_end_point root) fp
    :: chunk_children fp decoded_content (node_children root)
  end.

(* ------------------------------------------------------------------ *)
(** ** The embedding batcher ([utils.py]: [get_embeddings]) *)

(** An embedding ([np.ndarray] of floats); its entries are opaque here. *)
Definition Vec := list Z.

(** The [texts] argument: [Union[str, List[str]]]. *)
Inductive Texts :=
| TStr (t : list Z)
| TList (ts : list (list Z)).

(** One call to the embedding service per batch: [voyage batch] is the
    [data] of a 200 response, or [None] when [requests.post] raises or the
    status is not 200 (both re-raised by the loop). *)
Definition EmbedService := list (list Z) -> option (list Vec).

(** The loop over the batches: the batches actually sent, in order, and
    the embeddings ([None] once a call has raised). *)
Fixpoint embed_loop (voyage : EmbedService) (batches : list (list (list Z)))
  : list (list (list Z)) * option (list Vec) :=
  match batches with
  | [] => ([], Some [])
  | batch :: rest =>
    match voyage batch with
    | None => ([batch], None)
    | Some batch_embeddings =>
      let '(calls, r) := embed_loop voyage rest in
      (batch :: calls, (fun es => batch_embeddings ++ es) <$> r)
    end
  end.

Definition get_embeddings (voyage : EmbedService) (texts : Texts) (batch_size : Z)
  : list (list (list Z)) * option (list Vec) :=
  let texts := match texts with TStr t => [t] | TList ts => ts end in
  let texts := List.filter strip_nonempty texts in
  match texts with
  | [] => ([], Some [])
  | _ =>
    match py_batches texts batch_size with
    | None => ([], None)
    | Some batches => embed_loop voyage batches
    end
  end.

(** The default [batch_size] of [get_embeddings]. *)
Definition default_batch_size : Z := 32.

(* ------------------------------------------------------------------ *)
(** ** The point store ([utils.py]: [store_chunks_multi]) *)

(** [models.PointStruct(id=i, vector=embedding, payload=...)]; the payload
    carries every field of the chunk. *)
Record PointStruct := mkPointStruct {
  point_id : nat;
  vector : Vec;
  payload : CodeChunk
}.

(** [[PointStruct(id=i, ...) for i, (chunk, embedding) in
     enumerate(zip(chunks, embeddings))]] *)
Fixpoint make_points (i : nat) (chunks : list CodeChunk) (embeddings : list Vec)
  : list PointStruct :=
  match chunks, embeddings with
  | chunk :: cs, embedding :: es => mkPointStruct i embedding chunk :: make_points (S i) cs es
  | _, _ => []
  end.

(** [client.upsert(collection_name, points=batch)] succeeds or raises. *)
Definition UpsertService := string -> list PointStruct -> bool.

(* ------------------------------------------------------------------ *)
(** ** Path helpers ([os.path.join], [str.endswith], [str.split]) *)

Definition ends_with (s suffix : string) : bool :=
  let n := String.length s in
  let k := String.length suffix in
  (k <=? n)%nat && String.eqb (String.substring (n - k) k s) suffix.

(** [root.split("/")] *)
Fixpoint split_slash_aux (cur : string) (s : string) : list string :=
  match s with
  | EmptyString => [cur]
  | String c rest =>
    if Ascii.eqb c "/"%char then cur :: split_slash_aux EmptyString rest
    else split_slash_aux (cur +:+ String c EmptyString) rest
  end.
Definition split_slash (s : string) : list string := split_slash_aux EmptyString s.

Definition path_join (root file : string) : string :=
  if ends_with root "/" then root +:+ file else root +:+ "/" +:+ file.

(** [str.strip()] truthiness on an ASCII [string]. *)
Definition str_codes (s : string) : list Z :=
  map (fun a => Z.of_nat (Ascii.nat_of_ascii a)) (String.list_ascii_of_string s).

(* ------------------------------------------------------------------ *)
(** ** The service state ([app.py]) and its external collaborators *)

(** A value of [REPO_CONFIGS]: normally the dict
    [{"path": ..., "language": ...}]; [remove]'s error path stores a bare
    [str] there. *)
Inductive Config :=
| CfgDict (path : string) (language : string)
| CfgStr (s : string).

(** A hit of [qclient.search]. *)
Record Hit := mkHit { hit_payload : CodeChunk; score : Z }.

Record SearchResult := mkSearchResult {
  sr_file_path : string;
  code : list Z;
  sr_chunk_type : string;
  similarity : Z
}.

(** The calls the service makes to its collaborators, in order.  [CWalk]
    marks the walk of a repository (the call of [process_repositories]). *)
Inductive Call :=
| CWalk (repo_name : string)
| CEmbed (batch : list (list Z))
| CCreate (collection_name : string)
| CDelete (collection_name : string)
| CClear (collection_name : string)
| CUpsert (collection_name : string) (batch : list PointStruct)
| CSearch (collection_name : string) (query_vector : Vec) (limit : Z).

(** [REPO_CONFIGS] (in memory), the content of [repo_configs.json], the
    Qdrant collections (each a map from point id to point) and the log of
    calls. *)
Record AppState := mkAppState {
  REPO_CONFIGS : gmap string Config;
  saved_configs : gmap string Config;
  collections : gmap string (gmap nat PointStruct);
  calls : list Call
}.

(** The environment: file system, parsers and remote services. *)
Record Env := mkEnv {
  path_exists : string -> bool;                    (* os.path.exists *)
  os_walk : string -> list (string * string);      (* (root, file) pairs in walk order *)
  read_file : string -> option (list Z);           (* open(path, "rb").read(), None if it raises *)
  gitignore : string -> option (string -> bool);   (* load_gitignore: the matcher, if any *)
  parse_py : Parser;
  parse_ts : Parser;
  voyage : EmbedService;
  qdrant_create_ok : string -> bool;
  qdrant_delete_ok : string -> bool;
  qdrant_clear_ok : string -> bool;
  qdrant_upsert : UpsertService;
  qdrant_search : string -> Vec -> Z -> option (list Hit)
}.

(** Exceptions: FastAPI's [HTTPException] (its detail keeps the fixed
    prefix of the message) and any other Python exception, named by its
    class. *)
Inductive Exc :=
| HTTPException (status_code : Z) (detail : string)
| PyException (name : string).

(** State and exception monad of the request handlers. *)
Definition M (A : Type) : Type := AppState -> AppState * (Exc + A).

Global Instance M_ret : MRet M := fun A x s => (s, inr x).
Global Instance M_bind : MBind M := fun A B f m s =>
  match m s with
  | (s', inl e) => (s', inl e)
  | (s', inr x) => f x s'
  end.

Definition raise {A} (e : Exc) : M A := fun s => (s, inl e).
Definition get_state : M AppState := fun s => (s, inr s).
Definition put_state (s : AppState) : M unit := fun _ => (s, inr tt).

(** [try: m except Exception as e: handler(e)] *)
Definition try_except {A} (m : M A) (handler : Exc -> M A) : M A := fun s =>
  match m s with
  | (s', inl e) => handler e s'
  | r => r
  end.

Definition set_configs (c : gmap string Config) : M unit := fun s =>
  (mkAppState c (saved_configs s) (collections s) (calls s), inr tt).
Definition set_collections (c : gmap string (gmap nat PointStruct)) : M unit := fun s =>
  (mkAppState (REPO_CONFIGS s) (saved_configs s) c (calls s), inr tt).
Definition log_call (c : Call) : M unit := fun s =>
  (mkAppState (REPO_CONFIGS s) (saved_configs s) (collections s) (calls s ++ [c]), inr tt).

(* ------------------------------------------------------------------ *)
(** ** The operations, over an environment *)

Section Service.
Variable E : Env.

(** [qclient.create_collection(collection_name=name, ...)]: Qdrant refuses
    an existing name. *)
Definition create_collection (name : string) : M unit :=
  log_call (CCreate name) ;;
  s ← get_state;
  if bool_decide (name ∈ dom (collections s)) || negb (qdrant_create_ok E name)
  then raise (PyException "UnexpectedResponse")
  else set_collections (<[name := ∅]> (collections s)).

(** [qclient.delete_collection(collection_name=name)] *)
Definition delete_collection (name : string) : M unit :=
  log_call (CDelete name) ;;
  s ← get_state;
  if qdrant_delete_ok E name then set_collections (delete name (collections s))
  else raise (PyException "UnexpectedResponse").

(** [qclient.delete(collection_name=name, points_selector=FilterSelector(Filter()))]:
    every point of the collection matches the empty filter. *)
Definition clear_collection (name : string) : M unit :=
  log_call (CClear name) ;;
  s ← get_state;
  match collections s !! name with
  | Some _ =>
    if qdrant_clear_ok E name then set_collections (<[name := ∅]> (collections s))
    else raise (PyException "UnexpectedResponse")
  | None => raise (PyException "UnexpectedResponse")
  end.

(** [client.upsert(collection_name=name, points=batch)]: points replace
    the points of the same id. *)
Definition upsert (name : string) (batch : list PointStruct) : M unit :=
  log_call (CUpsert name batch) ;;
  s ← get_state;
  match collections s !! name with
  | Some pts =>
    if qdrant_upsert E name batch then
      set_collections (<[name := foldl (fun m p => <[point_id p := p]> m) pts batch]>
                         (collections s))
    else raise (PyException "UnexpectedResponse")
  | None => raise (PyException "UnexpectedResponse")
  end.

(** [for i in range(0, len(points), batch_size): client.upsert(...)] *)
Fixpoint upsert_loop (name : string) (batches : list (list PointStruct)) : M unit :=
  match batches with
  | [] => mret tt
  | batch :: rest => upsert name batch ;; upsert_loop name rest
  end.

Definition store_chunks_multi (collection_name : string) (chunks : list CodeChunk)
  (embeddings : list Vec) : M unit :=
  let points := make_points 0 chunks embeddings in
  let batch_size := 100 in
  match py_batches points batch_size with
  | None => raise (PyException "ValueError")
  | Some batches => upsert_loop collection_name batches
  end.

(** [get_embeddings(texts, batch_size)] with its service calls logged. *)
Definition embed (texts : Texts) (batch_size : Z) : M (list Vec) := fun s =>
  let '(cs, r) := get_embeddings (voyage E) texts batch_size in
  let s' := mkAppState (REPO_CONFIGS s) (saved_configs s) (collections s)
                       (calls s ++ map CEmbed cs) in
  match r with
  | Some es => (s', inr es)
  | None => (s', inl (PyException "RequestException"))
  end.

(** [is_ignored(path, gitignore_spec)] *)
Definition is_ignored (path : string) (gitignore_spec : option (string -> bool)) : bool :=
  match gitignore_spec with Some m => m path | None => false end
  || existsb (String.eqb "node_modules") (split_slash path).

(** The per-file loop shared by [process_repository_py] and
    [process_repository_ts]; an exception of [chunk_code_file] (the file
    cannot be read) is printed and the file skipped. *)
Fixpoint chunk_files (parser : Parser) (gitignore_spec : option (string -> bool))
  (files : list (string * string)) : list CodeChunk :=
  match files with
  | [] => []
  | (root, file) :: rest =>
    let fp := path_join root file in
    (if is_ignored fp gitignore_spec then []
     else match read_file E fp with
          | Some bytes => chunk_code_file fp bytes parser
          | None => []
          end) ++ chunk_files parser gitignore_spec rest
  end.

Definition process_repository_py (repo_path : string) (parser : Parser) : list CodeChunk :=
  let gitignore_spec := gitignore E repo_path in
  let files := List.filter (fun '(root, file) => ends_with file ".py") (os_walk E repo_path) in
  chunk_files parser gitignore_spec files.

Definition process_repository_ts (repo_path : string) (parser : Parser) : list CodeChunk :=
  let gitignore_spec := gitignore E repo_path in
  let react (file : string) :=
    ends_with file ".js" || ends_with file ".jsx" || ends_with file ".ts" || ends_with file ".tsx" in
  let files := List.filter (fun '(root, file) => react file) (os_walk E repo_path) in
  chunk_files parser gitignore_spec files.

(** [process_repositories({name: {path, language, parser}})[name]]; [None]
    is the [ValueError] on an unsupported language. *)
Definition process_repositories (repo_path language : string) (parser : Parser)
  : option (list CodeChunk) :=
  if String.eqb language "python" then Some (process_repository_py repo_path parser)
  else if String.eqb language "typescript" then Some (process_repository_ts repo_path parser)
  else None.

Definition index_repository (repo_name : string) : M unit :=
  s ← get_state;
  match REPO_CONFIGS s !! repo_name with
  | None => raise (PyException "KeyError")
  | Some (CfgStr _) => raise (PyException "TypeError")
  | Some (CfgDict path language) =>
    let parser := if String.eqb language "python" then parse_py E else parse_ts E in
    log_call (CWalk repo_name) ;;
    match process_repositories path language parser with
    | None => raise (PyException "ValueError")
    | Some chunks =>
      let chunk_contents := map content chunks in
      embs ← embed (TList chunk_contents) 32;
      clear_collection repo_name ;;
      store_chunks_multi repo_name chunks embs
    end
  end.

(** [save_repo_configs()]: [json.dump] of a dict of dicts and strings
    cannot raise [TypeError].  The file system is taken to be writable: an
    [OSError] from [open] or from the write is not modelled. *)
Definition save_repo_configs : M unit := fun s =>
  (mkAppState (REPO_CONFIGS s) (REPO_CONFIGS s) (collections s) (calls s), inr tt).

Record RepositoryAction := mkRepositoryAction {
  action : string;
  repo_name : string;
  repo_path : string;     (* defaults to "" *)
  language : string       (* defaults to "" *)
}.

(** The handler of [POST /repositories]; it returns the message. *)
Definition manage_repository (a : RepositoryAction) : M string :=
  if String.eqb (action a) "add" then
    s ← get_state;
    if bool_decide (repo_name a ∈ dom (REPO_CONFIGS s)) then
      raise (HTTPException 400 "Repository already exists")
    else if negb (path_exists E (repo_path a)) then
      raise (HTTPException 400 "Repository path does not exist")
    else
      set_configs (<[repo_name a := CfgDict (repo_path a) (language a)]> (REPO_CONFIGS s)) ;;
      try_except (create_collection (repo_name a)) (fun _ =>
        s ← get_state;
        set_configs (delete (repo_name a) (REPO_CONFIGS s)) ;;
        raise (HTTPException 500 "Failed to create collection")) ;;
      try_except (index_repository (repo_name a)) (fun _ =>
        s ← get_state;
        set_configs (delete (repo_name a) (REPO_CONFIGS s)) ;;
        delete_collection (repo_name a) ;;
        raise (HTTPException 500 "Failed to index repository")) ;;
      save_repo_configs ;;
      mret "added and indexed successfully"
  else if String.eqb (action a) "remove" then
    s ← get_state;
    if negb (bool_decide (repo_name a ∈ dom (REPO_CONFIGS s))) then
      raise (HTTPException 404 "Repository not found")
    else
      set_configs (delete (repo_name a) (REPO_CONFIGS s)) ;;
      try_except (delete_collection (repo_name a)) (fun _ =>
        s ← get_state;
        set_configs (<[repo_name a := CfgStr (repo_path a)]> (REPO_CONFIGS s)) ;;
        raise (HTTPException 500 "Failed to delete collection")) ;;
      save_repo_configs ;;
      mret "removed successfully"
  else mret "null".

Record Query := mkQuery { text : list Z; collection_name : string }.

(** The handler of [POST /search]. *)
Definition search (query : Query) : M (list SearchResult) :=
  s ← get_state;
  if negb (bool_decide (collection_name query ∈ dom (REPO_CONFIGS s))) then
    raise (HTTPException 400 "Invalid collection name")
  else
    search_results ← try_except
      (query_embedding ← embed (TStr (text query)) default_batch_size;
       match query_embedding with
       | [] => raise (PyException "IndexError")
       | v :: _ =>
         log_call (CSearch (collection_name query) v 5) ;;
         match qdrant_search E (collection_name query) v 5 with
         | Some hits => mret hits
         | None => raise (PyException "UnexpectedResponse")
         end
       end)
      (fun _ => raise (HTTPException 500 "Search failed"));
    mret (map (fun hit => mkSearchResult (file_path (hit_payload hit)) (content (hit_payload hit))
                            (chunk_type (hit_payload hit)) (score hit)) search_results).

(** [Query.text_must_not_be_empty]: pydantic runs the validator while
    building the [Query], before the handler is entered (status 422). *)
Definition post_search (query : Query) : M (list SearchResult) :=
  if negb (strip_nonempty (text query)) then
    raise (HTTPException 422 "Query text must not be empty")
  else search query.

(** The handler of [POST /reindex]. *)
Definition reindex_repository (name : string) : M string :=
  s ← get_state;
  if negb (bool_decide (name ∈ dom (REPO_CONFIGS s))) then
    raise (HTTPException 404 "Repository not found")
  else
    try_except (index_repository name)
      (fun _ => raise (HTTPException 500 "Failed to reindex repository")) ;;
    mret "reindexed successfully".

End Service.

(** [GET /collections]: the registered names (as a set; Python lists them
    in insertion order). *)
Definition list_collections (s : AppState) : gset string := dom (REPO_CONFIGS s).

(** The validators of [RepositoryAction] ([action_must_be_valid],
    [repo_name_must_not_be_empty]): pydantic runs them while building the
    request, before the handler, and answers 422; the first failing field
    (in declaration order) is reported here. *)
Definition validate_repository_action (a : RepositoryAction) : option Exc :=
  if negb (String.eqb (action a) "add" || String.eqb (action a) "remove") then
    Some (HTTPException 422 "Action must be either add or remove")
  else if negb (strip_nonempty (str_codes (repo_name a))) then
    Some (HTTPException 422 "Repository name must not be empty")
  else None.

(** [POST /repositories]: validation of the body, then [manage_repository]. *)
Definition post_repositories (E : Env) (a : RepositoryAction) : M string :=
  match validate_repository_action a with
  | Some e => raise e
  | None => manage_repository E a
  end.

(** [POST /reindex]: [ReindexRequest.repo_name_must_not_be_empty], then
    [reindex_repository]. *)
Definition post_reindex (E : Env) (name : string) : M string :=
  if negb (strip_nonempty (str_codes name)) then
    raise (HTTPException 422 "Repository name must not be empty")
  else reindex_repository E name.

(** [initialize_qdrant(collection_names)]: one [create_collection] per
    name, in order; the first failure propagates. *)
Fixpoint initialize_qdrant (E : Env) (collection_names : list string) : M unit :=
  match collection_names with
  | [] => mret tt
  | collection_name :: rest => create_collection E collection_name ;; initialize_qdrant E rest
  end.

(** The module-level start-up of [app.py] (lines 19-27): [REPO_CONFIGS] is
    loaded from [repo_configs.json] ([saved_configs]) when the file exists,
    [{}] otherwise, and the client creates a collection per key.  The keys
    are taken in the order of [elements]; Python takes the file's order. *)
Definition startup (E : Env) (file_exists : bool) : M unit :=
  s ← get_state;
  let cfg := if file_exists then saved_configs s else ∅ in
  set_configs cfg ;;
  initialize_qdrant E (elements (dom cfg)).

(* ------------------------------------------------------------------ *)
(** ** The change watcher ([watcher.py]: [RepoEventHandler]) *)

(** [pending_events] and [last_processed_time]; times are [time.time()]
    in milliseconds. *)
Record Watcher := mkWatcher {
  pending_events : gset string;
  last_processed_time : Z
}.

Fixpoint take_while {A} (p : A -> bool) (l : list A) : list A :=
  match l with
  | [] => []
  | x :: rest => if p x then x :: take_while p rest else []
  end.

Fixpoint drop_while {A} (p : A -> bool) (l : list A) : list A :=
  match l with
  | [] => []
  | x :: rest => if p x then drop_while p rest else l
  end.

Definition is_sep (c : ascii) : bool := Ascii.eqb c "/"%char.

(** [posixpath.dirname(p)]: [i = p.rfind('/') + 1; head = p[:i]]; then
    [if head and head != '/' * len(head): head = head.rstrip('/')]. *)
Definition py_dirname (p : list ascii) : list ascii :=
  let head := List.rev (drop_while (fun c => negb (is_sep c)) (List.rev p)) in
  if existsb (fun c => negb (is_sep c)) head
  then List.rev (drop_while is_sep (List.rev head))
  else head.

(** [posixpath.basename(p)]: [p[p.rfind('/') + 1:]]. *)
Definition py_basename (p : list ascii) : list ascii :=
  List.rev (take_while (fun c => negb (is_sep c)) (List.rev p)).

(** [os.path.basename(os.path.dirname(src_path))] *)
Definition repo_of_path (src_path : string) : string :=
  String.string_of_list_ascii
    (py_basename (py_dirname (String.list_ascii_of_string src_path))).

(** The inputs of the watcher: a file-system event delivered by the
    observer (with the time it arrives, which the handler does not read),
    or a tick of the main loop calling [process_events] at [now]. *)
Inductive WInput :=
| WEvent (is_directory : bool) (src_path : string) (arrival : Z)
| WTick (now : Z).

(** [on_any_event] *)
Definition on_any_event (w : Watcher) (is_directory : bool) (src_path : string) : Watcher :=
  if is_directory then w
  else mkWatcher ({[ repo_of_path src_path ]} ∪ pending_events w) (last_processed_time w).

(** [process_events]: the reindex triggers issued, each with whether
    [trigger_reindex] saw a 200 response ([trigger_ok now name]); the
    failures are only logged by [trigger_reindex]. *)
Definition process_events (trigger_ok : Z -> string -> bool) (w : Watcher) (current_time : Z)
  : Watcher * list (string * bool) :=
  if (current_time - last_processed_time w >? 5000) && negb (bool_decide (pending_events w = ∅))
  then (mkWatcher ∅ current_time,
        map (fun repo_name => (repo_name, trigger_ok current_time repo_name))
            (elements (pending_events w)))
  else (w, []).

(** One step of the watcher.  A flush is one step: the events that
    watchdog's observer thread delivers while the flush's triggers are being
    sent are not interleaved with them. *)
Definition watcher_step (trigger_ok : Z -> string -> bool) (w : Watcher) (i : WInput)
  : Watcher * list (string * bool) :=
  match i with
  | WEvent is_directory src_path _ => (on_any_event w is_directory src_path, [])
  | WTick now => process_events trigger_ok w now
  end.

(** What an execution shows: the events (repository and arrival time) and
    the triggers (repository, the [current_time] read at the start of the
    flush that sent it, and success), in order. *)
Inductive Obs :=
| OEvent (repo_name : string) (arrival : Z)
| OTrigger (repo_name : string) (now : Z) (ok : bool).

Fixpoint watcher_run (trigger_ok : Z -> string -> bool) (w : Watcher) (inputs : list WInput)
  : Watcher * list Obs :=
  match inputs with
  | [] => (w, [])
  | i :: rest =>
    let '(w1, ts) := watcher_step trigger_ok w i in
    let here := match i with
                | WEvent false src_path arrival => [OEvent (repo_of_path src_path) arrival]
                | WEvent true _ _ => []
                | WTick now => map (fun '(n, ok) => OTrigger n now ok) ts
                end in
    let '(w2, obs) := watcher_run trigger_ok w1 rest in
    (w2, here ++ obs)
  end.

(* ================================================================== *)
(** * Properties *)

(* ------------------------------------------------------------------ *)
(** ** Batching: [xs[i: i + bs] for i in range(0, len(xs), bs)] *)

Lemma firstn_min_length {A} (n : nat) (l : list A) :
  firstn (Nat.min n (length l)) l = firstn n l.
Proof.
  rewrite <- firstn_firstn, firstn_all. reflexivity.
Qed.

Lemma py_slice_nat {A} (xs : list A) (j k : nat) :
  (j <= length xs)%nat ->
  py_slice xs (Z.of_nat j) (Z.of_nat j + Z.of_nat k) = firstn k (skipn j xs).
Proof.
  intros Hj. unfold py_slice.
  replace (Z.of_nat j <? 0) with false by (symmetry; apply Z.ltb_ge; lia).
  replace (Z.of_nat j + Z.of_nat k <? 0) with false by (symmetry; apply Z.ltb_ge; lia).
  replace (Z.min (Z.of_nat j) (Z.of_nat (length xs))) with (Z.of_nat j) by lia.
  rewrite Nat2Z.id.
  rewrite <- (firstn_min_length k (skipn j xs)), length_skipn.
  f_equal. lia.
Qed.

Section Batches.
Context {A : Type} (xs : list A) (bs : nat) (Hbs : (0 < bs)%nat).

Definition slice_at (j : nat) : list A :=
  py_slice xs (Z.of_nat j) (Z.of_nat j + Z.of_nat bs).

Lemma range_step_concat fuel i :
  (length xs - i <= fuel)%nat ->
  concat (map slice_at (range_step fuel i (length xs) bs)) = skipn i xs.
Proof.
  revert i. induction fuel as [|fuel IH]; intros i Hf; simpl.
  - rewrite skipn_all2; [reflexivity | lia].
  - destruct (Nat.ltb_spec i (length xs)) as [Hi | Hi]; simpl.
    + unfold slice_at at 1. rewrite py_slice_nat by lia.
      rewrite IH by lia. rewrite Nat.add_comm, <- skipn_skipn.
      apply firstn_skipn.
    + rewrite skipn_all2; [reflexivity | lia].
Qed.

Lemma range_step_sizes fuel i :
  Forall (fun b => (0 < length b <= bs)%nat) (map slice_at (range_step fuel i (length xs) bs)).
Proof.
  revert i. induction fuel as [|fuel IH]; intros i; simpl; [constructor|].
  destruct (Nat.ltb_spec i (length xs)) as [Hi | Hi]; simpl; [|constructor].
  constructor; [|apply IH].
  unfold slice_at. rewrite py_slice_nat by lia.
  rewrite length_firstn, length_skipn. lia.
Qed.

Lemma range_step_length fuel i :
  (length xs - i <= fuel)%nat ->
  length (range_step fuel i (length xs) bs) = ((length xs - i + bs - 1) / bs)%nat.
Proof.
  revert i. induction fuel as [|fuel IH]; intros i Hf; simpl.
  - replace (length xs - i)%nat with 0%nat by lia.
    symmetry. apply Nat.div_small. lia.
  - destruct (Nat.ltb_spec i (length xs)) as [Hi | Hi]; simpl.
    + rewrite IH by lia.
      set (d := (length xs - i)%nat).
      replace (d + bs - 1)%nat with ((d - 1) + 1 * bs)%nat by lia.
      rewrite Nat.div_add by lia.
      destruct (Nat.le_gt_cases bs d) as [Hd | Hd].
      * replace (length xs - (i + bs) + bs - 1)%nat with (d - 1)%nat by lia. lia.
      * replace (length xs - (i + bs) + bs - 1)%nat with (bs - 1)%nat by lia.
        rewrite (Nat.div_small (bs - 1)) by lia.
        rewrite (Nat.div_small (d - 1)) by lia. lia.
    + replace (length xs - i + bs - 1)%nat with (bs - 1)%nat by lia.
      rewrite Nat.div_small by lia. reflexivity.
Qed.

End Batches.

(** The batches of [py_batches] cover the list in order, each holds between
    1 and [bs] elements, and there are [ceil(len(xs) / bs)] of them. *)
Lemma py_batches_spec {A} (xs : list A) (bs : Z) :
  0 < bs ->
  exists batches, py_batches xs bs = Some batches
    /\ concat batches = xs
    /\ Forall (fun b => (0 < length b <= Z.to_nat bs)%nat) batches
    /\ length batches = ((length xs + Z.to_nat bs - 1) / Z.to_nat bs)%nat.
Proof.
  intros Hbs. unfold py_batches, py_range0.
  replace (bs =? 0) with false by (symmetry; apply Z.eqb_neq; lia).
  replace (bs <? 0) with false by (symmetry; apply Z.ltb_ge; lia).
  eexists; split; [reflexivity|].
  assert (Hn : (0 < Z.to_nat bs)%nat) by lia.
  replace (fun i : nat => py_slice xs (Z.of_nat i) (Z.of_nat i + bs))
    with (slice_at xs (Z.to_nat bs)) by (unfold slice_at; rewrite Z2Nat.id by lia; reflexivity).
  split; [|split].
  - rewrite (range_step_concat xs (Z.to_nat bs)) by lia. reflexivity.
  - apply range_step_sizes; lia.
  - rewrite length_map, (range_step_length xs (Z.to_nat bs)) by lia. f_equal. lia.
Qed.

(* ------------------------------------------------------------------ *)
(** ** The embedding batcher *)

(** The embedding service honours its contract: one embedding per input,
    in order, each a function of its text. *)
Definition service_embeds (voyage : EmbedService) (f : list Z -> Vec) : Prop :=
  forall batch, voyage batch = Some (map f batch).

Lemma embed_loop_ok voyage f batches :
  service_embeds voyage f ->
  embed_loop voyage batches = (batches, Some (map f (concat batches))).
Proof.
  intros Hv. induction batches as [|b rest IH]; simpl; [reflexivity|].
  rewrite Hv, IH. simpl. rewrite map_app. reflexivity.
Qed.

(** The calls [get_embeddings] makes and what it returns, for a positive
    batch size and a service that keeps its contract. *)
Lemma get_embeddings_ok voyage f texts batch_size :
  0 < batch_size -> service_embeds voyage f ->
  exists batches,
    get_embeddings voyage (TList texts) batch_size
      = (batches, Some (map f (List.filter strip_nonempty texts)))
    /\ concat batches = List.filter strip_nonempty texts
    /\ Forall (fun b => (0 < length b <= Z.to_nat batch_size)%nat) batches
    /\ length batches
       = ((length (List.filter strip_nonempty texts) + Z.to_nat batch_size - 1)
          / Z.to_nat batch_size)%nat.
Proof.
  intros Hbs Hv. unfold get_embeddings.
  destruct (List.filter strip_nonempty texts) as [|t ts] eqn:Hf.
  - exists []. split; [reflexivity|]. split; [reflexivity|]. split; [constructor|].
    simpl. symmetry. apply Nat.div_small. lia.
  - destruct (py_batches_spec (t :: ts) batch_size Hbs)
      as (batches & Hb & Hc & Hs & Hl).
    exists batches. rewrite Hb, (embed_loop_ok _ f) by exact Hv. rewrite Hc.
    auto.
Qed.

(* ------------------------------------------------------------------ *)
(** ** The point store *)

(** Unfold the monad's plumbing. *)
Ltac mrun :=
  cbv [mbind M_bind mret M_ret raise get_state put_state log_call set_configs
       set_collections try_except] in *; cbn in *.

Lemma upsert_ok E name batch s pts :
  collections s !! name = Some pts ->
  qdrant_upsert E name batch = true ->
  upsert E name batch s
  = (mkAppState (REPO_CONFIGS s) (saved_configs s)
       (<[name := foldl (fun m p => <[point_id p := p]> m) pts batch]> (collections s))
       (calls s ++ [CUpsert name batch]), inr tt).
Proof.
  intros Hc Hu. unfold upsert. mrun. rewrite Hc, Hu. reflexivity.
Qed.

Lemma upsert_loop_ok E name batches s :
  name ∈ dom (collections s) ->
  (forall b, qdrant_upsert E name b = true) ->
  exists s', upsert_loop E name batches s = (s', inr tt)
    /\ calls s' = calls s ++ map (CUpsert name) batches
    /\ REPO_CONFIGS s' = REPO_CONFIGS s
    /\ saved_configs s' = saved_configs s
    /\ dom (collections s') = dom (collections s).
Proof.
  intros Hin Hu. revert s Hin. induction batches as [|b rest IH]; intros s Hin.
  - exists s. simpl. rewrite app_nil_r. auto.
  - apply elem_of_dom in Hin as [pts Hpts]. simpl.
    unfold mbind at 1, M_bind at 1. rewrite (upsert_ok E name b s pts Hpts (Hu b)).
    destruct (IH (mkAppState (REPO_CONFIGS s) (saved_configs s)
       (<[name := foldl (fun m p => <[point_id p := p]> m) pts b]> (collections s))
       (calls s ++ [CUpsert name b])))
      as (s' & Hrun & Hcalls & Hcf & Hsv & Hdom).
    { simpl. rewrite dom_insert_L. set_solver. }
    exists s'. rewrite Hrun. simpl in *. rewrite Hcalls, <- app_assoc. repeat split; auto.
    rewrite Hdom, dom_insert_L. apply elem_of_dom_2 in Hpts. set_solver.
Qed.

Lemma upsert_loop_inv E name batches s s' :
  upsert_loop E name batches s = (s', inr tt) ->
  calls s' = calls s ++ map (CUpsert name) batches.
Proof.
  revert s. induction batches as [|b rest IH]; intros s H; simpl in H.
  - mrun. injection H as <-. rewrite app_nil_r. reflexivity.
  - unfold mbind at 1, M_bind at 1 in H.
    destruct (upsert E name b s) as [s1 [e|[]]] eqn:Hu; [discriminate|].
    rewrite (IH s1 H). unfold upsert in Hu. mrun.
    destruct (collections s !! name); [|discriminate].
    destruct (qdrant_upsert E name b); [|discriminate].
    injection Hu as <-. simpl. rewrite <- app_assoc. reflexivity.
Qed.

(* ------------------------------------------------------------------ *)
(** ** Frame: what an indexing run may change *)

(** [s'] differs from [s] at most in the collection [name] and in the log. *)
Definition frame (name : string) (s s' : AppState) : Prop :=
  REPO_CONFIGS s' = REPO_CONFIGS s /\ saved_configs s' = saved_configs s
  /\ (forall k, k <> name -> collections s' !! k = collections s !! k)
  /\ dom (collections s') = dom (collections s).

Lemma frame_refl name s : frame name s s.
Proof. repeat split; auto. Qed.

Lemma frame_trans name s1 s2 s3 : frame name s1 s2 -> frame name s2 s3 -> frame name s1 s3.
Proof.
  intros (H1 & H2 & H3 & H4) (H5 & H6 & H7 & H8). repeat split; try congruence.
  intros k Hk. rewrite H7, H3; auto.
Qed.

(** A computation that keeps to the collection [name], whatever its
    outcome. *)
Definition frames {A} (name : string) (m : M A) : Prop :=
  forall s, frame name s (fst (m s)).

Lemma frames_bind {A B} name (m : M A) (k : A -> M B) :
  frames name m -> (forall x, frames name (k x)) -> frames name (m ≫= k).
Proof.
  intros Hm Hk s. unfold mbind, M_bind.
  specialize (Hm s). destruct (m s) as [s1 [e|x]]; simpl in *; [assumption|].
  eapply frame_trans; [exact Hm | apply Hk].
Qed.

Lemma frames_ret {A} name (x : A) : frames name (mret x).
Proof. intros s. apply frame_refl. Qed.

Lemma frames_raise {A} name e : frames name (@raise A e).
Proof. intros s. apply frame_refl. Qed.

Lemma frames_get name : frames name get_state.
Proof. intros s. apply frame_refl. Qed.

Lemma frames_log name c : frames name (log_call c).
Proof. intros s. repeat split; auto. Qed.

Lemma frames_clear E name : frames name (clear_collection E name).
Proof.
  apply frames_bind; [apply frames_log|]. intros _.
  intros s. mrun. destruct (collections s !! name) eqn:Hc; [|apply frame_refl].
  destruct (qdrant_clear_ok E name); [|apply frame_refl].
  repeat split; auto.
  - intros k Hk. simpl. rewrite lookup_insert_ne; auto.
  - simpl. rewrite dom_insert_L. apply elem_of_dom_2 in Hc. set_solver.
Qed.

Lemma frames_upsert E name b : frames name (upsert E name b).
Proof.
  apply frames_bind; [apply frames_log|]. intros _.
  intros s. mrun. destruct (collections s !! name) eqn:Hc; [|apply frame_refl].
  destruct (qdrant_upsert E name b); [|apply frame_refl].
  repeat split; auto.
  - intros k Hk. simpl. rewrite lookup_insert_ne; auto.
  - simpl. rewrite dom_insert_L. apply elem_of_dom_2 in Hc. set_solver.
Qed.

Lemma frames_upsert_loop E name batches : frames name (upsert_loop E name batches).
Proof.
  induction batches as [|b rest IH]; simpl; [apply frames_ret|].
  apply frames_bind; [apply frames_upsert | intros; exact IH].
Qed.

Lemma frames_store E name chunks embs : frames name (store_chunks_multi E name chunks embs).
Proof.
  unfold store_chunks_multi. destruct (py_batches _ _);
    [apply frames_upsert_loop | apply frames_raise].
Qed.

Lemma frames_embed E name texts bs : frames name (embed E texts bs).
Proof.
  intros s. unfold embed. destruct (get_embeddings _ _ _) as [cs [r|]];
    repeat split; auto.
Qed.

Lemma frames_index_repository E name : frames name (index_repository E name).
Proof.
  unfold index_repository. apply frames_bind; [apply frames_get|]. intros s.
  destruct (REPO_CONFIGS s !! name) as [[path lang|str]|]; try apply frames_raise.
  apply frames_bind; [apply frames_log|]. intros _.
  destruct (process_repositories E path lang _); [|apply frames_raise].
  apply frames_bind; [apply frames_embed|]. intros embs.
  apply frames_bind; [apply frames_clear|]. intros _.
  apply frames_store.
Qed.

(* ------------------------------------------------------------------ *)
(** ** A successful indexing run *)

(** The steps of a successful [index_repository], read off its calls:
    the walk, the embedding batches, the clear, the upsert batches. *)
Lemma index_repository_success E name s s' :
  index_repository E name s = (s', inr tt) ->
  exists path language chunks eb embs ub,
    REPO_CONFIGS s !! name = Some (CfgDict path language)
    /\ process_repositories E path language
         (if String.eqb language "python" then parse_py E else parse_ts E) = Some chunks
    /\ get_embeddings (voyage E) (TList (map content chunks)) 32 = (eb, Some embs)
    /\ py_batches (make_points 0 chunks embs) 100 = Some ub
    /\ calls s' = calls s ++ [CWalk name] ++ map CEmbed eb ++ [CClear name]
                  ++ map (CUpsert name) ub.
Proof.
  intros H. unfold index_repository, embed, clear_collection in H. mrun.
  destruct (REPO_CONFIGS s !! name) as [[path lang|str]|] eqn:Hc; try discriminate.
  destruct (process_repositories E path lang _) as [chunks|] eqn:Hp; [|discriminate].
  destruct (get_embeddings (voyage E) (TList (map content chunks)) 32)
    as [eb [embs|]] eqn:He; [|discriminate].
  simpl in H.
  destruct (collections s !! name) as [pts|] eqn:Hcol; [|discriminate].
  destruct (qdrant_clear_ok E name); [|discriminate].
  unfold store_chunks_multi in H.
  destruct (py_batches (make_points 0 chunks embs) 100) as [ub|] eqn:Hb; [|discriminate].
  apply upsert_loop_inv in H. simpl in H.
  exists path, lang, chunks, eb, embs, ub. repeat split; auto.
  rewrite H. repeat rewrite <- app_assoc. simpl.
  unfold py_batches, py_range0 in Hb. simpl in Hb. injection Hb as <-. reflexivity.
Qed.

(* ------------------------------------------------------------------ *)
(** ** A concrete repository: [demo], one file [a.py] with [def f(): pass] *)

Definition a_py : list Z := str_codes "def f(): pass" ++ [10].

(** The tree tree-sitter-python builds for [a_py]. *)
Definition a_py_tree : Node :=
  mkNode "module" 0 14 (mkTSPoint 0 0) (mkTSPoint 1 0)
    [mkNode "function_definition" 0 13 (mkTSPoint 0 0) (mkTSPoint 0 13) []].

(** A stand-in embedding: the length of the text. *)
Definition demo_embedding (t : list Z) : Vec := [Z.of_nat (length t)].

(** The demo environment; [embed_up] and [delete_up] say whether the
    embedding service and Qdrant's [delete_collection] answer. *)
Definition demo_env_faulty (embed_up delete_up : bool) : Env :=
  mkEnv (fun p => String.eqb p "/app/codebase/demo")
        (fun p => if String.eqb p "/app/codebase/demo" then [("/app/codebase/demo", "a.py")] else [])
        (fun fp => if String.eqb fp "/app/codebase/demo/a.py" then Some a_py else None)
        (fun _ => None)
        (fun _ => a_py_tree) (fun _ => a_py_tree)
        (fun batch => if embed_up then Some (map demo_embedding batch) else None)
        (fun _ => true) (fun _ => delete_up) (fun _ => true) (fun _ _ => true)
        (fun _ _ _ => Some []).

Definition demo_env : Env := demo_env_faulty true true.

(** The tree tree-sitter builds for an empty file: a [module] with no
    children, from (0, 0) to (0, 0). *)
Definition empty_module_tree : Node :=
  mkNode "module" 0 0 (mkTSPoint 0 0) (mkTSPoint 0 0) [].

Definition demo_init_parser : Parser :=
  fun code => match code with [] => empty_module_tree | _ => a_py_tree end.

(** [demo] with an empty [__init__.py] next to [a.py]: its file chunk is
    blank. *)
Definition demo_init_env : Env :=
  mkEnv (fun p => String.eqb p "/app/codebase/demo")
        (fun p => if String.eqb p "/app/codebase/demo"
                  then [("/app/codebase/demo", "__init__.py"); ("/app/codebase/demo", "a.py")]
                  else [])
        (fun fp => if String.eqb fp "/app/codebase/demo/__init__.py" then Some []
                   else if String.eqb fp "/app/codebase/demo/a.py" then Some a_py else None)
        (fun _ => None)
        demo_init_parser demo_init_parser
        (fun batch => Some (map demo_embedding batch))
        (fun _ => true) (fun _ => true) (fun _ => true) (fun _ _ => true)
        (fun _ _ _ => Some []).

Definition empty_state : AppState := mkAppState ∅ ∅ ∅ [].

Definition add_demo : RepositoryAction :=
  mkRepositoryAction "add" "demo" "/app/codebase/demo" "python".

Example a_py_chunks :
  map chunk_type (chunk_code_file "/app/codebase/demo/a.py" a_py (fun _ => a_py_tree))
  = ["file"; "function"].
Proof. reflexivity. Qed.

Example add_demo_ok :
  let '(s', r) := manage_repository demo_env add_demo empty_state in
  r = inr "added and indexed successfully" /\ list_collections s' = {[ "demo" ]}
  /\ calls s' = [CCreate "demo"; CWalk "demo";
                 CEmbed [str_codes "def f(): pass" ++ [10]; str_codes "def f(): pass"];
                 CClear "demo";
                 CUpsert "demo"
                   [mkPointStruct 0 [14] (mkCodeChunk a_py "file" 0 14 (mkTSPoint 0 0)
                                            (mkTSPoint 1 0) "/app/codebase/demo/a.py");
                    mkPointStruct 1 [13] (mkCodeChunk (str_codes "def f(): pass") "function" 0 13
                                            (mkTSPoint 0 0) (mkTSPoint 0 13)
                                            "/app/codebase/demo/a.py")]].
Proof. vm_compute. repeat split; reflexivity. Qed.

(* ================================================================== *)
(** * The claims *)

(** ** C4 *)

(** C4: for a positive batch size, [get_embeddings] drops the blank texts,
    sends the remaining texts in consecutive batches of at most
    [batch_size] (one service call per batch, [ceil(n / batch_size)] calls)
    and, when the service returns one embedding per input in order, returns
    exactly one embedding per non-blank text, in input order. *)
Theorem get_embeddings_filter_batch_order (voyage : EmbedService) (f : list Z -> Vec)
  (texts : list (list Z)) (batch_size : Z) :
  0 < batch_size -> service_embeds voyage f ->
  exists batches,
    get_embeddings voyage (TList texts) batch_size
      = (batches, Some (map f (List.filter strip_nonempty texts)))
    /\ concat batches = List.filter strip_nonempty texts
    /\ Forall (fun b => (0 < length b <= Z.to_nat batch_size)%nat) batches
    /\ length batches
       = ((length (List.filter strip_nonempty texts) + Z.to_nat batch_size - 1)
          / Z.to_nat batch_size)%nat.
Proof. apply get_embeddings_ok. Qed.

Lemma get_embeddings_filter_batch_order_witness :
  exists batches,
    get_embeddings (fun b => Some (map demo_embedding b))
      (TList [str_codes "a"; str_codes "  "; str_codes "bc"; str_codes "d"]) 2
      = (batches, Some (map demo_embedding
                          (List.filter strip_nonempty
                             [str_codes "a"; str_codes "  "; str_codes "bc"; str_codes "d"])))
    /\ concat batches = List.filter strip_nonempty
                          [str_codes "a"; str_codes "  "; str_codes "bc"; str_codes "d"]
    /\ Forall (fun b => (0 < length b <= Z.to_nat 2)%nat) batches
    /\ length batches
       = ((length (List.filter strip_nonempty
                     [str_codes "a"; str_codes "  "; str_codes "bc"; str_codes "d"])
           + Z.to_nat 2 - 1) / Z.to_nat 2)%nat.
Proof.
  apply (get_embeddings_filter_batch_order (fun b => Some (map demo_embedding b))
           demo_embedding).
  - lia.
  - intros b. reflexivity.
Defined.

(** ** C9 *)

(** C9: when every upsert succeeds, [store_chunks_multi] sends its [n]
    points in [ceil(n / 100)] upsert calls of at most 100 points each, whose
    concatenation in call order is the point list; no call for no points. *)
Theorem store_chunks_multi_sub_batches E name chunks embeddings s :
  name ∈ dom (collections s) ->
  (forall b, qdrant_upsert E name b = true) ->
  exists batches s',
    store_chunks_multi E name chunks embeddings s = (s', inr tt)
    /\ calls s' = calls s ++ map (CUpsert name) batches
    /\ concat batches = make_points 0 chunks embeddings
    /\ Forall (fun b => (0 < length b <= 100)%nat) batches
    /\ length batches = ((length (make_points 0 chunks embeddings) + 99) / 100)%nat
    /\ (make_points 0 chunks embeddings = [] -> batches = []).
Proof.
  intros Hin Hu. unfold store_chunks_multi.
  destruct (py_batches_spec (make_points 0 chunks embeddings) 100)
    as (batches & Hb & Hc & Hs & Hl); [lia|].
  change (Z.to_nat 100) with 100%nat in Hs, Hl.
  destruct (upsert_loop_ok E name batches s Hin Hu) as (s' & Hrun & Hcalls & _).
  exists batches, s'. rewrite Hb. repeat split; auto.
  - rewrite Hl. f_equal. lia.
  - intros Hnil. destruct batches as [|b rest]; [reflexivity|].
    inversion Hs as [|? ? Hb0 _]; subst. rewrite Hnil in Hc. simpl in Hc.
    apply app_eq_nil in Hc as [-> _]. simpl in Hb0. lia.
Qed.

Definition demo_chunks : list CodeChunk :=
  chunk_code_file "/app/codebase/demo/a.py" a_py (fun _ => a_py_tree).

Definition demo_embs : list Vec := [[1]; [2]].

Definition demo_store_state : AppState := mkAppState ∅ ∅ {[ "demo" := ∅ ]} [].

Lemma store_chunks_multi_sub_batches_witness :
  exists batches s',
    store_chunks_multi demo_env "demo" demo_chunks demo_embs demo_store_state = (s', inr tt)
    /\ calls s' = calls demo_store_state ++ map (CUpsert "demo") batches
    /\ concat batches = make_points 0 demo_chunks demo_embs
    /\ Forall (fun b => (0 < length b <= 100)%nat) batches
    /\ length batches = ((length (make_points 0 demo_chunks demo_embs) + 99) / 100)%nat
    /\ (make_points 0 demo_chunks demo_embs = [] -> batches = []).
Proof.
  apply (store_chunks_multi_sub_batches demo_env "demo" demo_chunks demo_embs demo_store_state).
  - apply elem_of_dom. eexists. reflexivity.
  - intros b. reflexivity.
Defined.

(* ------------------------------------------------------------------ *)
(** ** Running the handlers step by step *)

Lemma run_bind_inr {A B} (m : M A) (k : A -> M B) s s1 x :
  m s = (s1, inr x) -> (m ≫= k) s = k x s1.
Proof. intros H. unfold mbind, M_bind. rewrite H. reflexivity. Qed.

Lemma run_bind_inl {A B} (m : M A) (k : A -> M B) s s1 e :
  m s = (s1, inl e) -> (m ≫= k) s = (s1, inl e).
Proof. intros H. unfold mbind, M_bind. rewrite H. reflexivity. Qed.

Lemma run_get {B} (k : AppState -> M B) s : (get_state ≫= k) s = k s s.
Proof. reflexivity. Qed.

Lemma run_try_inr {A} (m : M A) h s s1 x :
  m s = (s1, inr x) -> try_except m h s = (s1, inr x).
Proof. intros H. unfold try_except. rewrite H. reflexivity. Qed.

Lemma run_try_inl {A} (m : M A) h s s1 e :
  m s = (s1, inl e) -> try_except m h s = h e s1.
Proof. intros H. unfold try_except. rewrite H. reflexivity. Qed.

Lemma create_collection_ok E name s :
  name ∉ dom (collections s) -> qdrant_create_ok E name = true ->
  create_collection E name s
  = (mkAppState (REPO_CONFIGS s) (saved_configs s) (<[name := ∅]> (collections s))
                (calls s ++ [CCreate name]), inr tt).
Proof.
  intros Hn Hok. unfold create_collection.
  erewrite run_bind_inr by reflexivity. rewrite run_get. cbn [collections].
  rewrite (bool_decide_eq_false_2 _ Hn), Hok. reflexivity.
Qed.

Lemma delete_collection_run E name s :
  delete_collection E name s
  = if qdrant_delete_ok E name
    then (mkAppState (REPO_CONFIGS s) (saved_configs s) (delete name (collections s))
                     (calls s ++ [CDelete name]), inr tt)
    else (mkAppState (REPO_CONFIGS s) (saved_configs s) (collections s)
                     (calls s ++ [CDelete name]), inl (PyException "UnexpectedResponse")).
Proof.
  unfold delete_collection. erewrite run_bind_inr by reflexivity. rewrite run_get.
  destruct (qdrant_delete_ok E name); reflexivity.
Qed.

(** The state of [add] once the config is written and the collection
    created (lines 95-104 of [app.py]). *)
Definition state_after_create (s : AppState) (a : RepositoryAction) : AppState :=
  mkAppState (<[repo_name a := CfgDict (repo_path a) (language a)]> (REPO_CONFIGS s))
    (saved_configs s) (<[repo_name a := ∅]> (collections s)) (calls s ++ [CCreate (repo_name a)]).

(** ** C1 *)

(** C1 (as the code has it): when the indexing run of a valid [add] fails,
    the config is removed again and the request fails with [IndexingError];
    the just-created collection is deleted, and the collections are as before
    the call, when that deletion succeeds; when the deletion itself fails,
    its error propagates instead and the collection is left behind. *)
Theorem add_indexing_failure_compensates E s a s_idx e :
  action a = "add" ->
  repo_name a ∉ dom (REPO_CONFIGS s) ->
  path_exists E (repo_path a) = true ->
  repo_name a ∉ dom (collections s) ->
  qdrant_create_ok E (repo_name a) = true ->
  index_repository E (repo_name a) (state_after_create s a) = (s_idx, inl e) ->
  let '(s', r) := manage_repository E a s in
  REPO_CONFIGS s' = REPO_CONFIGS s /\ saved_configs s' = saved_configs s
  /\ (qdrant_delete_ok E (repo_name a) = true ->
      r = inl (HTTPException 500 "Failed to index repository")
      /\ collections s' = collections s)
  /\ (qdrant_delete_ok E (repo_name a) = false ->
      r = inl (PyException "UnexpectedResponse")
      /\ repo_name a ∈ dom (collections s')).
Proof.
  intros Ha Hn Hp Hc Hok Hidx.
  destruct (frames_index_repository E (repo_name a) (state_after_create s a))
    as (Hcfg & Hsv & Hother & Hdom).
  rewrite Hidx in Hcfg, Hsv, Hother, Hdom. unfold state_after_create in *.
  cbn [fst REPO_CONFIGS saved_configs collections calls] in Hcfg, Hsv, Hother, Hdom.
  unfold manage_repository. rewrite Ha, String.eqb_refl. rewrite run_get.
  rewrite (bool_decide_eq_false_2 _ Hn), Hp. cbn [negb].
  erewrite run_bind_inr by reflexivity.
  erewrite run_bind_inr; [| apply run_try_inr, create_collection_ok; assumption].
  cbn [REPO_CONFIGS saved_configs collections calls].
  unfold mbind at 1, M_bind at 1.
  rewrite (run_try_inl _ _ _ _ _ Hidx), run_get.
  erewrite run_bind_inr by reflexivity.
  unfold mbind, M_bind. rewrite delete_collection_run.
  assert (Hcfg' : delete (repo_name a) (REPO_CONFIGS s_idx) = REPO_CONFIGS s).
  { rewrite Hcfg. apply delete_insert_id. by apply not_elem_of_dom. }
  destruct (qdrant_delete_ok E (repo_name a)) eqn:Hdel; cbn [raise REPO_CONFIGS saved_configs collections].
  - repeat split; auto; try discriminate.
    apply map_eq. intros k. destruct (decide (k = repo_name a)) as [->|Hk].
    + rewrite lookup_delete_eq. symmetry. by apply not_elem_of_dom.
    + rewrite lookup_delete_ne by auto. rewrite Hother by auto.
      apply lookup_insert_ne. auto.
  - repeat split; auto; try discriminate.
    rewrite Hdom, dom_insert_L. set_solver.
Qed.

Lemma add_indexing_failure_compensates_witness :
  let '(s', r) := manage_repository (demo_env_faulty false true) add_demo empty_state in
  REPO_CONFIGS s' = REPO_CONFIGS empty_state /\ saved_configs s' = saved_configs empty_state
  /\ (qdrant_delete_ok (demo_env_faulty false true) "demo" = true ->
      r = inl (HTTPException 500 "Failed to index repository")
      /\ collections s' = collections empty_state)
  /\ (qdrant_delete_ok (demo_env_faulty false true) "demo" = false ->
      r = inl (PyException "UnexpectedResponse")
      /\ "demo" ∈ dom (collections s')).
Proof.
  apply (add_indexing_failure_compensates (demo_env_faulty false true) empty_state add_demo
           (fst (index_repository (demo_env_faulty false true) "demo"
                   (state_after_create empty_state add_demo)))
           (PyException "RequestException")).
  - reflexivity.
  - vm_compute. intros H. inversion H.
  - reflexivity.
  - vm_compute. intros H. inversion H.
  - reflexivity.
  - vm_compute. reflexivity.
Defined.

(** C1 as stated fails: when the embedding service is down and the
    compensating [delete_collection] fails too, [add demo] ends with
    [demo] unregistered but its collection still present, and the error is
    not [IndexingError]. *)
Lemma add_indexing_failure_leaves_collection :
  let '(s', r) := manage_repository (demo_env_faulty false false) add_demo empty_state in
  r = inl (PyException "UnexpectedResponse")
  /\ list_collections s' = ∅
  /\ collections s' !! "demo" = Some ∅.
Proof. vm_compute. repeat split; reflexivity. Qed.

(** ** C2 *)

(** C2: when [remove] cannot delete the collection, the handler writes
    the request's [repo_path] (a bare string) back under the name instead of
    the config dict it had deleted. *)
Theorem remove_failure_restores_repo_path E s a path lang :
  action a = "remove" ->
  REPO_CONFIGS s !! repo_name a = Some (CfgDict path lang) ->
  qdrant_delete_ok E (repo_name a) = false ->
  let '(s', r) := manage_repository E a s in
  r = inl (HTTPException 500 "Failed to delete collection")
  /\ REPO_CONFIGS s' !! repo_name a = Some (CfgStr (repo_path a))
  /\ REPO_CONFIGS s' !! repo_name a <> REPO_CONFIGS s !! repo_name a.
Proof.
  intros Ha Hc Hdel.
  unfold manage_repository. rewrite Ha. cbn [String.eqb Ascii.eqb Bool.eqb].
  rewrite run_get.
  rewrite (bool_decide_eq_true_2 (repo_name a ∈ dom (REPO_CONFIGS s)))
    by (apply elem_of_dom; eauto).
  cbn [negb].
  erewrite run_bind_inr by reflexivity.
  unfold mbind at 1, M_bind at 1.
  rewrite (run_try_inl _ _ _ _ _ (eq_trans (delete_collection_run E (repo_name a) _)
                                           ltac:(rewrite Hdel; reflexivity))).
  rewrite run_get. erewrite run_bind_inr by reflexivity. cbn.
  rewrite lookup_insert_eq, Hc. repeat split; congruence.
Qed.

(** The failing input: [remove demo] with the request's default
    [repo_path] [""]. *)
Definition remove_demo : RepositoryAction := mkRepositoryAction "remove" "demo" "" "".

Definition demo_registered : AppState :=
  mkAppState {[ "demo" := CfgDict "/app/codebase/demo" "python" ]}
             {[ "demo" := CfgDict "/app/codebase/demo" "python" ]}
             {[ "demo" := ∅ ]} [].

Lemma remove_failure_restores_repo_path_witness :
  let '(s', r) := manage_repository (demo_env_faulty true false) remove_demo demo_registered in
  r = inl (HTTPException 500 "Failed to delete collection")
  /\ REPO_CONFIGS s' !! "demo" = Some (CfgStr "")
  /\ REPO_CONFIGS s' !! "demo" <> REPO_CONFIGS demo_registered !! "demo".
Proof.
  apply (remove_failure_restores_repo_path (demo_env_faulty true false) demo_registered
           remove_demo "/app/codebase/demo" "python").
  - reflexivity.
  - reflexivity.
  - reflexivity.
Defined.

(** After that failure the registry entry is unusable: reindexing [demo]
    fails with a [TypeError] inside [index_repository]. *)
Example remove_failure_then_reindex :
  let '(s', _) := manage_repository (demo_env_faulty true false) remove_demo demo_registered in
  snd (reindex_repository (demo_env_faulty true true) "demo" s')
  = inl (HTTPException 500 "Failed to reindex repository").
Proof. vm_compute. reflexivity. Qed.

(** ** C3 *)

(** What the claim promises of [chunk_code_file], written as a predicate:
    the file chunk comes first with the decoded content, then one chunk per
    function/class child of the root, whose content is the text at the
    node's byte offsets (in the bytes that were parsed) and whose byte range
    lies within the file chunk's. *)
Definition chunk_claim (fp : string) (raw : list Z) (parser : Parser) : Prop :=
  forall decoded, decode_py raw = Some decoded ->
  let root := parser (utf8_encode decoded) in
  exists fc rest,
    chunk_code_file fp raw parser = fc :: rest
    /\ chunk_type fc = "file" /\ content fc = decoded
    /\ Forall2 (fun n c =>
          chunk_type c
            = (if String.eqb (node_type n) "function_definition" then "function" else "class")
          /\ start_byte c = node_start_byte n /\ end_byte c = node_end_byte n
          /\ utf8_encode (content c)
             = py_slice (utf8_encode decoded) (node_start_byte n) (node_end_byte n)
          /\ start_byte fc <= start_byte c /\ end_byte c <= end_byte fc)
        (List.filter is_def_node (node_children root)) rest.

(** The shape the code does guarantee: the file chunk first, then one
    chunk per function/class child of the root, of the right type and with
    the node's byte offsets. *)
Lemma chunk_children_shape fp decoded nodes :
  Forall2 (fun n c =>
      chunk_type c
        = (if String.eqb (node_type n) "function_definition" then "function" else "class")
      /\ start_byte c = node_start_byte n /\ end_byte c = node_end_byte n
      /\ content c = py_slice decoded (node_start_byte n) (node_end_byte n))
    (List.filter is_def_node nodes) (chunk_children fp decoded nodes).
Proof.
  induction nodes as [|n ns IH]; simpl; [constructor|].
  destruct (is_def_node n); simpl; [|exact IH].
  constructor; [repeat split | exact IH].
Qed.

Lemma chunk_code_file_shape fp raw parser decoded :
  decode_py raw = Some decoded ->
  exists fc rest,
    chunk_code_file fp raw parser = fc :: rest
    /\ chunk_type fc = "file" /\ content fc = decoded
    /\ start_byte fc = 0 /\ end_byte fc = Z.of_nat (length raw)
    /\ rest = chunk_children fp decoded (node_children (parser (utf8_encode decoded))).
Proof.
  intros Hd. unfold chunk_code_file. rewrite Hd. eexists _, _. repeat split.
Qed.

(** A Latin-1 file (byte 0xE9 is not UTF-8): [# é] on the first line,
    [def f(): pass] on the second, 17 bytes. *)
Definition b_py : list Z := str_codes "# " ++ [233; 10] ++ str_codes "def f(): pass".

(** The tree tree-sitter-python builds for the UTF-8 re-encoding of the
    decoded text (18 bytes: [é] takes two). *)
Definition b_py_tree : Node :=
  mkNode "module" 0 18 (mkTSPoint 0 0) (mkTSPoint 1 13)
    [mkNode "comment" 0 4 (mkTSPoint 0 0) (mkTSPoint 0 4) [];
     mkNode "function_definition" 5 18 (mkTSPoint 1 0) (mkTSPoint 1 13) []].

(** C3 at the failing input: the function chunk ends at byte 18, past the
    file chunk's end (17, the raw length), and its content, sliced from the
    decoded text by byte offsets, is [ef f(): pass] rather than
    [def f(): pass]. *)
Theorem chunk_code_file_latin1_offsets :
  decode_py b_py = Some b_py
  /\ chunk_code_file "b.py" b_py (fun _ => b_py_tree)
     = [mkCodeChunk b_py "file" 0 17 (mkTSPoint 0 0) (mkTSPoint 1 13) "b.py";
        mkCodeChunk (str_codes "ef f(): pass") "function" 5 18
          (mkTSPoint 1 0) (mkTSPoint 1 13) "b.py"].
Proof. split; reflexivity. Qed.

Lemma chunk_claim_fails_latin1 : ~ chunk_claim "b.py" b_py (fun _ => b_py_tree).
Proof.
  intros H. destruct (H b_py eq_refl) as (fc & rest & Heq & _ & _ & Hall).
  vm_compute in Heq. injection Heq as <- <-.
  vm_compute in Hall. inversion Hall as [|n c ns cs Hnc Hrest]; subst.
  destruct Hnc as (_ & _ & _ & _ & _ & Hle). vm_compute in Hle. apply Hle. reflexivity.
Qed.

(** ** C5 *)

(** The claim: a name leaves the pending set only in a step that issued a
    successful trigger for it. *)
Definition removal_after_success (trigger_ok : Z -> string -> bool) (w : Watcher)
  (i : WInput) : Prop :=
  let '(w', ts) := watcher_step trigger_ok w i in
  forall n, n ∈ pending_events w -> n ∉ pending_events w' -> (n, true) ∈ ts.

Lemma on_any_event_grows w is_directory src_path :
  pending_events w ⊆ pending_events (on_any_event w is_directory src_path)
  /\ last_processed_time (on_any_event w is_directory src_path) = last_processed_time w.
Proof.
  unfold on_any_event. destruct is_directory; simpl; split; auto; set_solver.
Qed.

(** C5 fails: [demo] is pending, the tick at 6 s flushes, the reindex
    request fails, and [demo] is gone from the set all the same. *)
Lemma watcher_clears_failed_trigger :
  ~ removal_after_success (fun _ _ => false) (mkWatcher {[ "demo" ]} 0) (WTick 6000).
Proof.
  assert (Hs : watcher_step (fun _ _ => false) (mkWatcher {[ "demo" ]} 0) (WTick 6000)
               = (mkWatcher ∅ 6000, [("demo"%string, false)])) by (vm_compute; reflexivity).
  unfold removal_after_success. rewrite Hs. intros H. cbn beta iota in H.
  assert (H1 : "demo"%string ∈ pending_events (mkWatcher {[ "demo"%string ]} 0))
    by (cbn [pending_events]; apply elem_of_singleton; reflexivity).
  assert (H2 : "demo"%string ∉ pending_events (mkWatcher ∅ 6000))
    by (cbn [pending_events]; apply not_elem_of_empty).
  specialize (H "demo"%string H1 H2).
  apply list_elem_of_singleton in H. discriminate.
Qed.

(** C5 (as the code has it): a name leaves the pending set only in the
    flush that attempted a reindex trigger for it, whether or not the trigger
    succeeded; a flush empties the set whatever the outcomes. *)
Theorem watcher_removal_after_trigger_attempt trigger_ok w i :
  let '(w', ts) := watcher_step trigger_ok w i in
  (forall n, n ∈ pending_events w -> n ∉ pending_events w' -> exists b, (n, b) ∈ ts)
  /\ (ts <> [] -> pending_events w' = ∅).
Proof.
  destruct i as [is_directory src_path arrival | now]; simpl.
  - destruct (on_any_event_grows w is_directory src_path) as [Hsub _].
    split; [|congruence]. intros n Hin Hout. exfalso. apply Hout, Hsub, Hin.
  - unfold process_events.
    destruct ((now - last_processed_time w >? 5000)
              && negb (bool_decide (pending_events w = ∅))); simpl.
    + split; [|reflexivity]. intros n Hin _. exists (trigger_ok now n).
      apply (list_elem_of_fmap (fun repo_name => (repo_name, trigger_ok now repo_name))). exists n. split; [reflexivity|].
      by apply elem_of_elements.
    + split; [|congruence]. intros n Hin Hout. contradiction.
Qed.

(** ** C6 *)

(** The claim, on what an execution shows: a trigger for a repository
    comes more than 5 s after each earlier event for it, and no trigger for
    a repository falls between two of its events less than 5 s apart. *)
Definition debounce_claim (obs : list Obs) : Prop :=
  (forall i j r a t b, (i < j)%nat ->
     obs !! i = Some (OEvent r a) -> obs !! j = Some (OTrigger r t b) -> t - a > 5000)
  /\ (forall i k j r a1 a2 t b, (i < k)%nat -> (k < j)%nat ->
     obs !! i = Some (OEvent r a1) -> obs !! k = Some (OTrigger r t b) ->
     obs !! j = Some (OEvent r a2) -> a2 - a1 <= 5000 -> False).

(** Ticks every second from 5 s to 12 s; [demo/a.py] changes at 5.5 s and
    6.5 s. *)
Definition burst_inputs : list WInput :=
  [WTick 5000; WEvent false "/app/codebase/demo/a.py" 5500; WTick 6000;
   WEvent false "/app/codebase/demo/a.py" 6500; WTick 7000; WTick 8000; WTick 9000;
   WTick 10000; WTick 11000; WTick 12000].

Lemma burst_run :
  watcher_run (fun _ _ => true) (mkWatcher ∅ 0) burst_inputs
  = (mkWatcher ∅ 12000,
     [OEvent "demo" 5500; OTrigger "demo" 6000 true; OEvent "demo" 6500;
      OTrigger "demo" 12000 true]).
Proof. vm_compute. reflexivity. Qed.

(** C6 fails: the trigger at 6 s comes 0.5 s after the event, and the two
    events 1 s apart give two triggers. *)
Lemma watcher_burst_two_triggers :
  ~ debounce_claim (snd (watcher_run (fun _ _ => true) (mkWatcher ∅ 0) burst_inputs)).
Proof.
  rewrite burst_run. simpl. intros [H1 _].
  specialize (H1 0%nat 1%nat "demo"%string 5500 6000 true).
  assert (H : 6000 - 5500 > 5000) by (apply H1; [lia | reflexivity | reflexivity]).
  lia.
Qed.

(** C6 (as the code has it): in every step of the watcher (a flush being
    one step), an event sends no trigger and adds to the pending set exactly
    the repository of its path (the name of the directory directly
    containing the file, [repo_of_path]) when it is not a directory event,
    and nothing when it is; a tick flushes only when more than 5 s have
    passed since the previous flush (not since any repository's last event)
    and something is pending, and then triggers every pending repository
    exactly once and empties the pending set. *)
Theorem watcher_flush_throttle trigger_ok w i :
  let '(w', ts) := watcher_step trigger_ok w i in
  match i with
  | WEvent is_directory src_path _ =>
    ts = []
    /\ pending_events w'
       = (if is_directory then pending_events w
          else {[ repo_of_path src_path ]} ∪ pending_events w)
    /\ last_processed_time w' = last_processed_time w
  | WTick now =>
    (now - last_processed_time w > 5000 /\ pending_events w <> ∅
     /\ map fst ts = elements (pending_events w) /\ NoDup (map fst ts)
     /\ pending_events w' = ∅ /\ last_processed_time w' = now)
    \/ (ts = [] /\ w' = w
        /\ ~ (now - last_processed_time w > 5000 /\ pending_events w <> ∅))
  end.
Proof.
  destruct i as [is_directory src_path arrival | now]; simpl.
  - destruct is_directory; simpl; auto.
  - unfold process_events.
    destruct (Z.gtb_spec (now - last_processed_time w) 5000) as [Ht|Ht];
    destruct (bool_decide (pending_events w = ∅)) eqn:He; simpl.
    + right. apply bool_decide_eq_true_1 in He. repeat split; auto. tauto.
    + left. apply bool_decide_eq_false_1 in He.
      rewrite map_map. simpl. rewrite List.map_id.
      repeat split; auto; [lia|]. apply NoDup_elements.
    + right. repeat split; auto. lia.
    + right. repeat split; auto. lia.
Qed.

(** ** C7 *)

(** [get_embeddings(text)] on one non-blank text: one batch of one item. *)
Lemma get_embeddings_single voyage t :
  strip_nonempty t = true ->
  get_embeddings voyage (TStr t) default_batch_size
  = ([[t]], match voyage [t] with Some es => Some (es ++ []) | None => None end).
Proof.
  intros Ht. unfold get_embeddings. cbn [List.filter]. rewrite Ht.
  cbn. change (py_slice [t] (Z.of_nat 0) (Z.of_nat 0 + default_batch_size)) with [t].
  destruct (voyage [t]); reflexivity.
Qed.

(** The claim, for one request: an unregistered name gives
    [InvalidCollection] with no service call, a blank text [EmptyQuery]. *)
Definition search_claim E (q : Query) (s : AppState) : Prop :=
  let '(s', r) := post_search E q s in
  (collection_name q ∉ dom (REPO_CONFIGS s) ->
     r = inl (HTTPException 400 "Invalid collection name") /\ calls s' = calls s)
  /\ (strip_nonempty (text q) = false ->
     r = inl (HTTPException 422 "Query text must not be empty")).

(** C7 fails when both conditions hold: a blank query on an unregistered
    name is refused as [EmptyQuery], not [InvalidCollection]. *)
Lemma search_blank_unregistered :
  ~ search_claim demo_env (mkQuery (str_codes "   ") "nope") empty_state.
Proof.
  unfold search_claim. vm_compute. intros [H _].
  destruct H as [H _]; [intros Hin; inversion Hin|]. discriminate.
Qed.

(** C7 (as the code has it): a blank text is refused with [EmptyQuery]
    first, whatever the name; a non-blank text on an unregistered name with
    [InvalidCollection], with no call at all; otherwise the text is embedded
    as a batch of one item and a top-5 search is issued on the collection
    with its first embedding. *)
Theorem post_search_checks E q s :
  let '(s', r) := post_search E q s in
  (strip_nonempty (text q) = false ->
     r = inl (HTTPException 422 "Query text must not be empty") /\ s' = s)
  /\ (strip_nonempty (text q) = true -> collection_name q ∉ dom (REPO_CONFIGS s) ->
     r = inl (HTTPException 400 "Invalid collection name") /\ s' = s)
  /\ (strip_nonempty (text q) = true -> collection_name q ∈ dom (REPO_CONFIGS s) ->
     exists rest, calls s' = calls s ++ CEmbed [text q] :: rest
       /\ (forall v es, voyage E [text q] = Some (v :: es) ->
             rest = [CSearch (collection_name q) v 5])).
Proof.
  unfold post_search.
  destruct (strip_nonempty (text q)) eqn:Ht; cbn [negb].
  - unfold search. rewrite run_get.
    destruct (bool_decide (collection_name q ∈ dom (REPO_CONFIGS s))) eqn:Hin; cbn [negb].
    + apply bool_decide_eq_true_1 in Hin.
      unfold embed.
      rewrite (get_embeddings_single (voyage E) (text q) Ht).
      destruct (voyage E [text q]) as [[|v es]|] eqn:Hv; mrun.
      * split; [discriminate|]. split; [intros _ Hn; contradiction|].
        intros _ _. exists []. split; [reflexivity|]. intros v es Hve. discriminate.
      * destruct (qdrant_search E (collection_name q) v 5); mrun;
        (split; [discriminate|]); (split; [intros _ Hn; contradiction|]);
        intros _ _; exists [CSearch (collection_name q) v 5];
        (split; [rewrite <- app_assoc; reflexivity|]);
        intros v' es'' Hve; injection Hve as <- _; reflexivity.
      * split; [discriminate|]. split; [intros _ Hn; contradiction|].
        intros _ _. exists []. split; [reflexivity|]. intros v es Hve. discriminate.
    + apply bool_decide_eq_false_1 in Hin. mrun.
      split; [discriminate|]. split; [auto|]. intros _ Hn; contradiction.
  - mrun. split; [auto|]. split; intros; discriminate.
Qed.

(** ** C8 *)

(** A successful [reindex] runs [index_repository] to its end. *)
Lemma reindex_repository_inr E name s s' m :
  reindex_repository E name s = (s', inr m) ->
  index_repository E name s = (s', inr tt).
Proof.
  intros H. unfold reindex_repository in H. rewrite run_get in H.
  destruct (bool_decide (name ∈ dom (REPO_CONFIGS s))); cbn [negb] in H;
    [|mrun; discriminate].
  unfold mbind, M_bind, try_except in H.
  destruct (index_repository E name s) as [s1 [e|[]]] eqn:Hi; mrun;
    [discriminate|].
  injection H as <- _. reflexivity.
Qed.

(** The order the claim gives for a successful [reindex]: clear, walk,
    embed, upsert. *)
Definition reindex_order_claim E name s : Prop :=
  forall s' m, reindex_repository E name s = (s', inr m) ->
  exists eb ub, calls s' = calls s ++ [CClear name; CWalk name]
                           ++ map CEmbed eb ++ map (CUpsert name) ub.

(** C8 fails on the registered demo repository: the first call of the
    reindex is the walk, the clear comes only after the embedding. *)
Lemma reindex_clears_after_embedding :
  ~ reindex_order_claim demo_env "demo" demo_registered.
Proof.
  intros H.
  assert (Hr : reindex_repository demo_env "demo" demo_registered
               = (fst (reindex_repository demo_env "demo" demo_registered),
                  inr "reindexed successfully")) by (vm_compute; reflexivity).
  destruct (H _ _ Hr) as (eb & ub & Hc).
  assert (Hw : exists rest, calls (fst (reindex_repository demo_env "demo" demo_registered))
                            = calls demo_registered ++ CWalk "demo" :: rest)
    by (eexists; vm_compute; reflexivity).
  destruct Hw as [rest Hw]. rewrite Hw in Hc.
  apply app_inv_head in Hc. injection Hc as Hc. discriminate.
Qed.

(** C8 (as the code has it): a successful [reindex] of a registered
    repository walks and chunks it, embeds the chunk contents, and only then
    clears the collection and upserts the new points (the batches of which
    are the points built from the chunks and embeddings). *)
Theorem reindex_order E name s s' m :
  reindex_repository E name s = (s', inr m) ->
  exists path language chunks eb embs ub,
    REPO_CONFIGS s !! name = Some (CfgDict path language)
    /\ process_repositories E path language
         (if String.eqb language "python" then parse_py E else parse_ts E) = Some chunks
    /\ get_embeddings (voyage E) (TList (map content chunks)) 32 = (eb, Some embs)
    /\ concat ub = make_points 0 chunks embs
    /\ calls s' = calls s ++ [CWalk name] ++ map CEmbed eb ++ [CClear name]
                  ++ map (CUpsert name) ub.
Proof.
  intros H. apply reindex_repository_inr, index_repository_success in H.
  destruct H as (path & language & chunks & eb & embs & ub & Hc & Hp & He & Hb & Hl).
  exists path, language, chunks, eb, embs, ub. repeat split; auto.
  destruct (py_batches_spec (make_points 0 chunks embs) 100) as (ub' & Hb' & Hcat & _);
    [lia|].
  rewrite Hb in Hb'. injection Hb' as <-. exact Hcat.
Qed.

Lemma reindex_order_witness :
  reindex_repository demo_env "demo" demo_registered
  = (fst (reindex_repository demo_env "demo" demo_registered), inr "reindexed successfully")
  /\ exists path language chunks eb embs ub,
    REPO_CONFIGS demo_registered !! "demo" = Some (CfgDict path language)
    /\ process_repositories demo_env path language
         (if String.eqb language "python" then parse_py demo_env else parse_ts demo_env)
       = Some chunks
    /\ get_embeddings (voyage demo_env) (TList (map content chunks)) 32 = (eb, Some embs)
    /\ concat ub = make_points 0 chunks embs
    /\ calls (fst (reindex_repository demo_env "demo" demo_registered))
       = calls demo_registered ++ [CWalk "demo"] ++ map CEmbed eb ++ [CClear "demo"]
         ++ map (CUpsert "demo") ub.
Proof.
  assert (Hr : reindex_repository demo_env "demo" demo_registered
               = (fst (reindex_repository demo_env "demo" demo_registered),
                  inr "reindexed successfully")) by (vm_compute; reflexivity).
  split; [exact Hr|].
  exact (reindex_order demo_env "demo" demo_registered _ _ Hr).
Defined.

(** ** C10 *)

Lemma map_lookup {A B} (g : A -> B) (l : list A) i :
  List.map g l !! i = g <$> l !! i.
Proof.
  revert i. induction l as [|a l IH]; intros [|i]; simpl; auto.
Qed.

Lemma make_points_lookup i cs es k :
  make_points i cs es !! k
  = match cs !! k, es !! k with
    | Some c, Some e => Some (mkPointStruct (i + k) e c)
    | _, _ => None
    end.
Proof.
  revert i es k. induction cs as [|c cs IH]; intros i [|e es] [|k]; simpl;
    try reflexivity.
  - destruct (cs !! k); reflexivity.
  - rewrite Nat.add_0_r. reflexivity.
  - rewrite IH, Nat.add_succ_r. reflexivity.
Qed.

Lemma make_points_length i cs es :
  length (make_points i cs es) = Nat.min (length cs) (length es).
Proof.
  revert i es. induction cs as [|c cs IH]; intros i [|e es]; simpl; auto.
Qed.

Lemma filter_length_le {A} (p : A -> bool) (l : list A) :
  (length (List.filter p l) <= length l)%nat.
Proof.
  induction l as [|a l IH]; simpl; [lia|]. destruct (p a); simpl; lia.
Qed.

(** Dropping an element makes [filter] strictly shorter. *)
Lemma filter_length_lt {A} (p : A -> bool) (l : list A) k y :
  l !! k = Some y -> p y = false -> (length (List.filter p l) < length l)%nat.
Proof.
  revert k. induction l as [|a l IH]; intros [|k] Hk Hp; simpl in *; try discriminate.
  - injection Hk as ->. rewrite Hp. pose proof (filter_length_le p l). lia.
  - specialize (IH k Hk Hp). destruct (p a); simpl; lia.
Qed.

(** The [i]-th kept element sits at an index [j >= i] of the list, and
    strictly after [i] as soon as an element at or before [i] was dropped. *)
Lemma filter_lookup_shift {A} (p : A -> bool) (l : list A) i x :
  List.filter p l !! i = Some x ->
  exists j, l !! j = Some x /\ (i <= j)%nat
    /\ (forall k y, (k <= i)%nat -> l !! k = Some y -> p y = false -> (i < j)%nat).
Proof.
  revert i. induction l as [|a l IH]; intros i Hi; simpl in Hi; [discriminate|].
  destruct (p a) eqn:Ha.
  - destruct i as [|i]; simpl in Hi.
    + injection Hi as <-. exists 0%nat. split; [reflexivity|]. split; [lia|].
      intros [|k] y Hk Hy Hp; [|lia]. simpl in Hy. injection Hy as <-. congruence.
    + destruct (IH i Hi) as (j & Hj & Hij & Hlt). exists (S j).
      split; [exact Hj|]. split; [lia|].
      intros [|k] y Hk Hy Hp; simpl in Hy.
      * injection Hy as <-. congruence.
      * specialize (Hlt k y ltac:(lia) Hy Hp). lia.
  - destruct (IH i Hi) as (j & Hj & Hij & _). exists (S j).
    split; [exact Hj|]. split; [lia|]. intros; lia.
Qed.

(** C10: under an embedding service that embeds every text, the points an
    indexing run upserts pair the [i]-th chunk with the [i]-th embedding
    under id [i], as many as the shorter list; when some chunk is blank,
    their number is that of the non-blank contents (fewer than the chunks),
    each stored chunk from the first blank one on carries the embedding of
    a later chunk's content, and the last chunks get no point. *)
Theorem index_repository_points_pairing E f name s s' :
  service_embeds (voyage E) f ->
  index_repository E name s = (s', inr tt) ->
  exists path language chunks eb ub,
    REPO_CONFIGS s !! name = Some (CfgDict path language)
    /\ process_repositories E path language
         (if String.eqb language "python" then parse_py E else parse_ts E) = Some chunks
    /\ calls s' = calls s ++ [CWalk name] ++ map CEmbed eb ++ [CClear name]
                  ++ map (CUpsert name) ub
    /\ let embs := map f (List.filter strip_nonempty (map content chunks)) in
       (forall i pt, concat ub !! i = Some pt <->
          exists c e, chunks !! i = Some c /\ embs !! i = Some e
                      /\ pt = mkPointStruct i e c)
    /\ length (concat ub) = Nat.min (length chunks) (length embs)
    /\ (forall k0 c0, chunks !! k0 = Some c0 -> strip_nonempty (content c0) = false ->
          length (concat ub) = length (List.filter strip_nonempty (map content chunks))
          /\ (length (concat ub) < length chunks)%nat
          /\ (forall i c, (k0 <= i)%nat -> (i < length (concat ub))%nat ->
                chunks !! i = Some c ->
                exists j cj, (i < j)%nat /\ chunks !! j = Some cj
                  /\ concat ub !! i = Some (mkPointStruct i (f (content cj)) c))
          /\ (forall i pt, (length (concat ub) <= i)%nat -> pt ∈ concat ub ->
                point_id pt <> i)).
Proof.
  intros Hf H. apply index_repository_success in H.
  destruct H as (path & language & chunks & eb & embs & ub & Hc & Hp & He & Hb & Hl).
  destruct (get_embeddings_ok (voyage E) f (map content chunks) 32) as (bs & He' & _);
    [lia|exact Hf|].
  rewrite He in He'. injection He' as _ ->.
  destruct (py_batches_spec (make_points 0 chunks
              (map f (List.filter strip_nonempty (map content chunks)))) 100)
    as (ub' & Hb' & Hcat & _); [lia|].
  rewrite Hb in Hb'. injection Hb' as <-.
  exists path, language, chunks, eb, ub. split; [exact Hc|]. split; [exact Hp|].
  split; [exact Hl|]. cbv zeta. rewrite Hcat.
  set (texts := List.filter strip_nonempty (map content chunks)).
  assert (Hlen : (length texts <= length chunks)%nat).
  { pose proof (filter_length_le strip_nonempty (map content chunks)).
    rewrite length_map in H. exact H. }
  split; [|split].
  - intros i pt. rewrite make_points_lookup.
    destruct (chunks !! i) as [c|]; [|split; [discriminate|intros (? & ? & ? & _); discriminate]].
    destruct (map f texts !! i) as [e|]; [|split; [discriminate|intros (? & ? & _ & ? & _); discriminate]].
    split.
    + intros Hpt. injection Hpt as <-. exists c, e. auto.
    + intros (c' & e' & Hc' & He'' & ->). injection Hc' as <-. injection He'' as <-.
      reflexivity.
  - apply make_points_length.
  - intros k0 c0 Hk0 Hblank.
    assert (Hmin : length (make_points 0 chunks (map f texts)) = length texts).
    { rewrite make_points_length, length_map. lia. }
    rewrite Hmin. split; [reflexivity|]. split.
    { pose proof (filter_length_lt strip_nonempty (map content chunks) k0 (content c0))
        as Hlt.
      rewrite length_map in Hlt. apply Hlt; [|exact Hblank].
      rewrite map_lookup, Hk0. reflexivity. }
    split.
    + intros i c Hi Hlt Hci.
      destruct (lookup_lt_is_Some_2 texts i Hlt) as [t Ht].
      destruct (filter_lookup_shift strip_nonempty (map content chunks) i t Ht)
        as (j & Hj & _ & Hshift).
      rewrite map_lookup in Hj.
      destruct (chunks !! j) as [cj|] eqn:Hcj; [|discriminate].
      injection Hj as Hj.
      exists j, cj. split.
      { apply (Hshift k0 (content c0)); auto. rewrite map_lookup, Hk0. reflexivity. }
      split; [exact Hcj|].
      rewrite make_points_lookup, Hci, map_lookup, Ht. simpl. rewrite Hj. reflexivity.
    + intros i pt Hi Hin. apply list_elem_of_lookup in Hin. destruct Hin as [n Hn].
      pose proof (lookup_lt_Some _ _ _ Hn) as Hn'. rewrite Hmin in Hn'.
      rewrite make_points_lookup in Hn.
      destruct (chunks !! n), (map f texts !! n); try discriminate.
      injection Hn as <-. simpl. lia.
Qed.

Lemma index_repository_points_pairing_witness :
  service_embeds (voyage demo_init_env) demo_embedding
  /\ index_repository demo_init_env "demo" demo_registered
     = (fst (index_repository demo_init_env "demo" demo_registered), inr tt)
  /\ exists path language chunks eb ub,
    (REPO_CONFIGS demo_registered !! "demo" = Some (CfgDict path language)
    /\ process_repositories demo_init_env path language
         (if String.eqb language "python" then parse_py demo_init_env else parse_ts demo_init_env)
       = Some chunks
    /\ calls (fst (index_repository demo_init_env "demo" demo_registered))
       = calls demo_registered ++ [CWalk "demo"] ++ map CEmbed eb ++ [CClear "demo"]
         ++ map (CUpsert "demo") ub
    /\ let embs := map demo_embedding (List.filter strip_nonempty (map content chunks)) in
       (forall i pt, concat ub !! i = Some pt <->
          exists c e, chunks !! i = Some c /\ embs !! i = Some e
                      /\ pt = mkPointStruct i e c)
    /\ length (concat ub) = Nat.min (length chunks) (length embs)
    /\ (forall k0 c0, chunks !! k0 = Some c0 -> strip_nonempty (content c0) = false ->
          length (concat ub) = length (List.filter strip_nonempty (map content chunks))
          /\ (length (concat ub) < length chunks)%nat
          /\ (forall i c, (k0 <= i)%nat -> (i < length (concat ub))%nat ->
                chunks !! i = Some c ->
                exists j cj, (i < j)%nat /\ chunks !! j = Some cj
                  /\ concat ub !! i = Some (mkPointStruct i (demo_embedding (content cj)) c))
          /\ (forall i pt, (length (concat ub) <= i)%nat -> pt ∈ concat ub ->
                point_id pt <> i)))
    /\ exists c0 c1 c2,
         chunks = [c0; c1; c2]
         /\ strip_nonempty (content c0) = false
         /\ length (concat ub) = 2%nat
         /\ concat ub !! 0%nat = Some (mkPointStruct 0 (demo_embedding (content c1)) c0)
         /\ concat ub !! 1%nat = Some (mkPointStruct 1 (demo_embedding (content c2)) c1)
         /\ (forall pt, pt ∈ concat ub -> point_id pt <> 2%nat).
Proof.
  assert (Hf : service_embeds (voyage demo_init_env) demo_embedding) by (intros b; reflexivity).
  assert (Hr : index_repository demo_init_env "demo" demo_registered
               = (fst (index_repository demo_init_env "demo" demo_registered), inr tt))
    by (vm_compute; reflexivity).
  split; [exact Hf|]. split; [exact Hr|].
  destruct (index_repository_points_pairing demo_init_env demo_embedding "demo"
              demo_registered _ Hf Hr)
    as (path & language & chunks & eb & ub & Hc & Hp & Hl & Hpair & Hlen & Hblank).
  exists path, language, chunks, eb, ub.
  split; [exact (conj Hc (conj Hp (conj Hl (conj Hpair (conj Hlen Hblank)))))|].
  vm_compute in Hc. injection Hc as <- <-.
  vm_compute in Hp. injection Hp as <-.
  match goal with |- exists c0 c1 c2, [?a; ?b; ?d] = _ /\ _ => exists a, b, d end.
  assert (H0 : strip_nonempty (content (mkCodeChunk [] "file" 0 0 (mkTSPoint 0 0) (mkTSPoint 0 0)
                  "/app/codebase/demo/__init__.py")) = false) by reflexivity.
  destruct (Hblank 0%nat _ eq_refl ltac:(vm_compute; reflexivity)) as (Hn & _ & _ & Hid).
  assert (Hn2 : length (concat ub) = 2%nat) by (rewrite Hn; vm_compute; reflexivity).
  split; [reflexivity|]. split; [vm_compute; reflexivity|]. split; [exact Hn2|].
  split; [|split].
  - apply Hpair. eexists _, _. split; [reflexivity|]. split; [vm_compute; reflexivity|].
    vm_compute. reflexivity.
  - apply Hpair. eexists _, _. split; [reflexivity|]. split; [vm_compute; reflexivity|].
    vm_compute. reflexivity.
  - intros pt Hpt. apply (Hid 2%nat pt); [lia|exact Hpt].
Defined.

(* ================================================================== *)
(** * Further properties of the code *)


Lemma lor_plus (k a b : Z) :
  0 <= k -> 0 <= b < 2 ^ k -> a mod 2 ^ k = 0 -> Z.lor a b = a + b.
Proof.
  intros Hk Hb Ha.
  assert (Hland : Z.land a b = 0).
  { apply Z.bits_inj'. intros n Hn. rewrite Z.land_spec, Z.bits_0.
    destruct (Z.lt_ge_cases n k) as [Hlt|Hge].
    - rewrite <- (Z.mod_pow2_bits_low a k n Hlt), Ha, Z.bits_0. reflexivity.
    - rewrite <- (Z.mod_small b (2 ^ k) Hb).
      rewrite Z.mod_pow2_bits_high by lia. apply andb_false_r. }
  rewrite Z.add_nocarry_lxor by exact Hland. rewrite Z.lxor_lor by exact Hland.
  reflexivity.
Qed.

Lemma land_ones_mod (x : Z) (k : Z) : 0 <= k -> Z.land x (Z.ones k) = x mod 2 ^ k.
Proof. intros Hk. apply Z.land_ones. exact Hk. Qed.

Lemma land63 x : Z.land x 63 = x mod 64.
Proof. apply (land_ones_mod x 6). lia. Qed.
Lemma land31 x : Z.land x 31 = x mod 32.
Proof. apply (land_ones_mod x 5). lia. Qed.
Lemma land15 x : Z.land x 15 = x mod 16.
Proof. apply (land_ones_mod x 4). lia. Qed.
Lemma land7 x : Z.land x 7 = x mod 8.
Proof. apply (land_ones_mod x 3). lia. Qed.
Lemma shl6 x : Z.shiftl x 6 = x * 64.
Proof. rewrite Z.shiftl_mul_pow2 by lia. reflexivity. Qed.
Lemma shl12 x : Z.shiftl x 12 = x * 4096.
Proof. rewrite Z.shiftl_mul_pow2 by lia. reflexivity. Qed.
Lemma shl18 x : Z.shiftl x 18 = x * 262144.
Proof. rewrite Z.shiftl_mul_pow2 by lia. reflexivity. Qed.
Lemma shr6 x : Z.shiftr x 6 = x / 64.
Proof. rewrite Z.shiftr_div_pow2 by lia. reflexivity. Qed.
Lemma shr12 x : Z.shiftr x 12 = x / 4096.
Proof. rewrite Z.shiftr_div_pow2 by lia. reflexivity. Qed.
Lemma shr18 x : Z.shiftr x 18 = x / 262144.
Proof. rewrite Z.shiftr_div_pow2 by lia. reflexivity. Qed.

Lemma lor8 a b : 0 <= b < 8 -> a mod 8 = 0 -> Z.lor a b = a + b.
Proof. apply (lor_plus 3). lia. Qed.
Lemma lor16 a b : 0 <= b < 16 -> a mod 16 = 0 -> Z.lor a b = a + b.
Proof. apply (lor_plus 4). lia. Qed.
Lemma lor32 a b : 0 <= b < 32 -> a mod 32 = 0 -> Z.lor a b = a + b.
Proof. apply (lor_plus 5). lia. Qed.
Lemma lor64 a b : 0 <= b < 64 -> a mod 64 = 0 -> Z.lor a b = a + b.
Proof. apply (lor_plus 6). lia. Qed.
Lemma lor4096 a b : 0 <= b < 4096 -> a mod 4096 = 0 -> Z.lor a b = a + b.
Proof. apply (lor_plus 12). lia. Qed.
Lemma lor262144 a b : 0 <= b < 262144 -> a mod 262144 = 0 -> Z.lor a b = a + b.
Proof. apply (lor_plus 18). lia. Qed.

(** The two-byte form. *)
Lemma utf8_char2 b0 b1 :
  194 <= b0 <= 223 -> 128 <= b1 <= 191 ->
  Z.lor (Z.shiftl (Z.land b0 31) 6) (Z.land b1 63) = (b0 - 192) * 64 + (b1 - 128).
Proof.
  intros H0 H1. rewrite land31, land63, shl6.
  rewrite lor64; [| apply Z.mod_pos_bound; lia | apply Z.mod_mul; lia].
  Z.to_euclidean_division_equations. lia.
Qed.

Lemma utf8_char3 b0 b1 b2 :
  224 <= b0 <= 239 -> 128 <= b1 <= 191 -> 128 <= b2 <= 191 ->
  Z.lor (Z.lor (Z.shiftl (Z.land b0 15) 12) (Z.shiftl (Z.land b1 63) 6)) (Z.land b2 63)
  = (b0 - 224) * 4096 + (b1 - 128) * 64 + (b2 - 128).
Proof.
  intros H0 H1 H2. rewrite land15, !land63, shl12, shl6.
  rewrite (lor4096 (b0 mod 16 * 4096));
    [| Z.to_euclidean_division_equations; lia | apply Z.mod_mul; lia].
  rewrite lor64; [| apply Z.mod_pos_bound; lia | Z.to_euclidean_division_equations; lia].
  Z.to_euclidean_division_equations. lia.
Qed.

Lemma utf8_char4 b0 b1 b2 b3 :
  240 <= b0 <= 244 -> 128 <= b1 <= 191 -> 128 <= b2 <= 191 -> 128 <= b3 <= 191 ->
  Z.lor (Z.lor (Z.shiftl (Z.land b0 7) 18) (Z.shiftl (Z.land b1 63) 12))
        (Z.lor (Z.shiftl (Z.land b2 63) 6) (Z.land b3 63))
  = (b0 - 240) * 262144 + (b1 - 128) * 4096 + (b2 - 128) * 64 + (b3 - 128).
Proof.
  intros H0 H1 H2 H3. rewrite land7, !land63, shl18, shl12, shl6.
  rewrite (lor262144 (b0 mod 8 * 262144)); [| Z.to_euclidean_division_equations; lia | apply Z.mod_mul; lia].
  rewrite (lor64 (b2 mod 64 * 64)); [| apply Z.mod_pos_bound; lia | apply Z.mod_mul; lia].
  rewrite lor4096; [| Z.to_euclidean_division_equations; lia
                    | Z.to_euclidean_division_equations; lia].
  Z.to_euclidean_division_equations. lia.
Qed.

Lemma utf8_encode_char1 c : c < 128 -> utf8_encode_char c = [c].
Proof. intros Hc. unfold utf8_encode_char. rewrite (proj2 (Z.ltb_lt c 128)) by lia. reflexivity. Qed.

Lemma utf8_encode_char2 c :
  128 <= c < 2048 -> utf8_encode_char c = [192 + c / 64; 128 + c mod 64].
Proof.
  intros Hc. unfold utf8_encode_char.
  rewrite (proj2 (Z.ltb_ge c 128)), (proj2 (Z.ltb_lt c 2048)) by lia.
  rewrite shr6, land63.
  rewrite lor32 by (reflexivity || (Z.to_euclidean_division_equations; lia)).
  rewrite lor64 by (reflexivity || (Z.to_euclidean_division_equations; lia)).
  reflexivity.
Qed.

Lemma utf8_encode_char3 c :
  2048 <= c < 65536 ->
  utf8_encode_char c = [224 + c / 4096; 128 + (c / 64) mod 64; 128 + c mod 64].
Proof.
  intros Hc. unfold utf8_encode_char.
  rewrite (proj2 (Z.ltb_ge c 128)), (proj2 (Z.ltb_ge c 2048)), (proj2 (Z.ltb_lt c 65536))
    by lia.
  rewrite shr12, shr6, !land63.
  rewrite lor16 by (reflexivity || (Z.to_euclidean_division_equations; lia)).
  rewrite !lor64 by (reflexivity || (Z.to_euclidean_division_equations; lia)).
  reflexivity.
Qed.

Lemma utf8_encode_char4 c :
  65536 <= c <= 1114111 ->
  utf8_encode_char c
  = [240 + c / 262144; 128 + (c / 4096) mod 64; 128 + (c / 64) mod 64; 128 + c mod 64].
Proof.
  intros Hc. unfold utf8_encode_char.
  rewrite (proj2 (Z.ltb_ge c 128)), (proj2 (Z.ltb_ge c 2048)), (proj2 (Z.ltb_ge c 65536))
    by lia.
  rewrite shr18, shr12, shr6, !land63.
  rewrite lor8 by (reflexivity || (Z.to_euclidean_division_equations; lia)).
  rewrite !lor64 by (reflexivity || (Z.to_euclidean_division_equations; lia)).
  reflexivity.
Qed.

Lemma in_range_spec lo hi b : in_range lo hi b = true <-> lo <= b <= hi.
Proof. unfold in_range. rewrite andb_true_iff, !Z.leb_le. reflexivity. Qed.

Lemma utf8_encode_cons c s : utf8_encode (c :: s) = utf8_encode_char c ++ utf8_encode s.
Proof. reflexivity. Qed.

(** Rewrite the boolean comparisons of the goal whose value [lia] decides. *)
Ltac zbool :=
  repeat match goal with
  | |- context [?a <=? ?b] =>
      first [rewrite (proj2 (Z.leb_le a b)) by lia | rewrite (proj2 (Z.leb_gt a b)) by lia]
  | |- context [?a =? ?b] =>
      first [rewrite (proj2 (Z.eqb_eq a b)) by lia | rewrite (proj2 (Z.eqb_neq a b)) by lia]
  end; cbn [andb orb negb].

Ltac in_range_hyps :=
  repeat match goal with
  | H : in_range _ _ _ = true |- _ => apply in_range_spec in H
  | H : is_cont _ = true |- _ => unfold is_cont in H; apply in_range_spec in H
  | H : (_ && _) = true |- _ => apply andb_true_iff in H; destruct H
  end.

(** What the strict decoder accepts, the encoder gives back byte for byte. *)
Lemma utf8_encode_of_decode bs s : utf8_decode bs = Some s -> utf8_encode s = bs.
Proof.
  revert s. induction bs as [bs IH] using (induction_ltof1 _ (@length Z)).
  unfold ltof in IH. intros s H.
  destruct bs as [|b0 r0]; simpl in H; [injection H as <-; reflexivity|].
  destruct (Z.leb_spec b0 127) as [Hb0|Hb0].
  { destruct (utf8_decode r0) as [s0|] eqn:Hr; [|discriminate]. injection H as <-.
    rewrite utf8_encode_cons, utf8_encode_char1 by lia.
    rewrite (IH r0) by (simpl; lia || exact Hr). reflexivity. }
  destruct (in_range 194 223 b0) eqn:H2.
  { destruct r0 as [|b1 r1]; [discriminate|].
    destruct (is_cont b1) eqn:H3; [|discriminate].
    destruct (utf8_decode r1) as [s1|] eqn:Hr; [|discriminate]. injection H as <-.
    in_range_hyps. rewrite utf8_encode_cons, utf8_char2 by lia.
    rewrite utf8_encode_char2 by lia.
    rewrite (IH r1) by (simpl; lia || exact Hr). simpl.
    repeat f_equal; Z.to_euclidean_division_equations; lia. }
  destruct (in_range 224 239 b0) eqn:H4.
  { destruct r0 as [|b1 [|b2 r2]]; try discriminate.
    match type of H with context [if ?c then _ else None] => destruct c eqn:Hok end;
      [|discriminate].
    destruct (utf8_decode r2) as [s2|] eqn:Hr; [|discriminate]. injection H as <-.
    apply andb_true_iff in Hok as [Hok Hc2]. in_range_hyps.
    assert (Hb1 : 128 <= b1 <= 191 /\ (b0 = 224 -> 160 <= b1)).
    { destruct (Z.eqb_spec b0 224); [apply in_range_spec in Hok; lia|].
      destruct (Z.eqb_spec b0 237); apply in_range_spec in Hok; lia. }
    rewrite utf8_encode_cons, utf8_char3 by lia.
    rewrite utf8_encode_char3 by lia.
    rewrite (IH r2) by (simpl; lia || exact Hr). simpl.
    repeat f_equal; Z.to_euclidean_division_equations; lia. }
  destruct (in_range 240 244 b0) eqn:H5; [|discriminate].
  destruct r0 as [|b1 [|b2 [|b3 r3]]]; try discriminate.
  match type of H with context [if ?c then _ else None] => destruct c eqn:Hok end;
    [|discriminate].
  destruct (utf8_decode r3) as [s3|] eqn:Hr; [|discriminate]. injection H as <-.
  apply andb_true_iff in Hok as [Hok Hc3]. apply andb_true_iff in Hok as [Hok Hc2].
  in_range_hyps.
  assert (Hb1 : 128 <= b1 <= 191 /\ (b0 = 240 -> 144 <= b1) /\ (b0 = 244 -> b1 <= 143)).
  { destruct (Z.eqb_spec b0 240); [apply in_range_spec in Hok; lia|].
    destruct (Z.eqb_spec b0 244); apply in_range_spec in Hok; lia. }
  rewrite utf8_encode_cons, utf8_char4 by lia.
  rewrite utf8_encode_char4 by lia.
  rewrite (IH r3) by (simpl; lia || exact Hr). simpl.
  repeat f_equal; Z.to_euclidean_division_equations; lia.
Qed.

(** A Unicode scalar value: a code point that is not a surrogate. *)
Definition is_scalar (c : Z) : Prop := 0 <= c <= 1114111 /\ ~ (55296 <= c <= 57343).

Lemma utf8_decode_encode_char c rest :
  is_scalar c ->
  utf8_decode (utf8_encode_char c ++ rest) = cons c <$> utf8_decode rest.
Proof.
  intros [Hc Hs].
  destruct (Z.lt_ge_cases c 128) as [H1|H1].
  { rewrite utf8_encode_char1 by lia. simpl. zbool. reflexivity. }
  destruct (Z.lt_ge_cases c 2048) as [H2|H2].
  { rewrite utf8_encode_char2 by lia.
    set (b0 := 192 + c / 64). set (b1 := 128 + c mod 64).
    assert (194 <= b0 <= 223) by (subst b0; Z.to_euclidean_division_equations; lia).
    assert (128 <= b1 <= 191) by (subst b1; Z.to_euclidean_division_equations; lia).
    simpl. unfold is_cont, in_range. zbool. rewrite utf8_char2 by lia.
    replace ((b0 - 192) * 64 + (b1 - 128)) with c
      by (subst b0 b1; Z.to_euclidean_division_equations; lia).
    reflexivity. }
  destruct (Z.lt_ge_cases c 65536) as [H3|H3].
  { rewrite utf8_encode_char3 by lia.
    set (b0 := 224 + c / 4096). set (b1 := 128 + (c / 64) mod 64).
    set (b2 := 128 + c mod 64).
    assert (224 <= b0 <= 239) by (subst b0; Z.to_euclidean_division_equations; lia).
    assert (128 <= b1 <= 191) by (subst b1; Z.to_euclidean_division_equations; lia).
    assert (128 <= b2 <= 191) by (subst b2; Z.to_euclidean_division_equations; lia).
    assert (b0 = 224 -> 160 <= b1)
      by (subst b0 b1; Z.to_euclidean_division_equations; lia).
    assert (b0 = 237 -> b1 <= 159)
      by (subst b0 b1; Z.to_euclidean_division_equations; lia).
    simpl. unfold is_cont, in_range.
    destruct (Z.eqb_spec b0 224); [|destruct (Z.eqb_spec b0 237)]; zbool;
      rewrite utf8_char3 by lia;
      replace ((b0 - 224) * 4096 + (b1 - 128) * 64 + (b2 - 128)) with c
        by (subst b0 b1 b2; Z.to_euclidean_division_equations; lia);
      reflexivity. }
  rewrite utf8_encode_char4 by lia.
  set (b0 := 240 + c / 262144). set (b1 := 128 + (c / 4096) mod 64).
  set (b2 := 128 + (c / 64) mod 64). set (b3 := 128 + c mod 64).
  assert (240 <= b0 <= 244) by (subst b0; Z.to_euclidean_division_equations; lia).
  assert (128 <= b1 <= 191) by (subst b1; Z.to_euclidean_division_equations; lia).
  assert (128 <= b2 <= 191) by (subst b2; Z.to_euclidean_division_equations; lia).
  assert (128 <= b3 <= 191) by (subst b3; Z.to_euclidean_division_equations; lia).
  assert (b0 = 240 -> 144 <= b1)
    by (subst b0 b1; Z.to_euclidean_division_equations; lia).
  assert (b0 = 244 -> b1 <= 143)
    by (subst b0 b1; Z.to_euclidean_division_equations; lia).
  simpl. unfold is_cont, in_range.
  destruct (Z.eqb_spec b0 240); [|destruct (Z.eqb_spec b0 244)]; zbool;
    rewrite utf8_char4 by lia;
    replace ((b0 - 240) * 262144 + (b1 - 128) * 4096 + (b2 - 128) * 64 + (b3 - 128)) with c
      by (subst b0 b1 b2 b3; Z.to_euclidean_division_equations; lia);
    reflexivity.
Qed.

(** The encoding of a string of scalar values decodes back to it. *)
Lemma utf8_decode_of_encode s : Forall is_scalar s -> utf8_decode (utf8_encode s) = Some s.
Proof.
  induction 1 as [|c s Hc Hs IH]; [reflexivity|].
  rewrite utf8_encode_cons, utf8_decode_encode_char by exact Hc. rewrite IH. reflexivity.
Qed.

(** On bytes, the decoder only produces scalar values. *)
Lemma utf8_decode_scalar bs s :
  Forall (fun b => 0 <= b < 256) bs -> utf8_decode bs = Some s -> Forall is_scalar s.
Proof.
  revert s. induction bs as [bs IH] using (induction_ltof1 _ (@length Z)).
  unfold ltof in IH. intros s Hbytes H.
  destruct bs as [|b0 r0]; simpl in H; [injection H as <-; constructor|].
  apply Forall_cons in Hbytes as [Hb Hbytes].
  destruct (Z.leb_spec b0 127) as [Hb0|Hb0].
  { destruct (utf8_decode r0) as [s0|] eqn:Hr; [|discriminate]. injection H as <-.
    constructor; [split; lia|]. apply (IH r0); [simpl; lia | exact Hbytes | exact Hr]. }
  destruct (in_range 194 223 b0) eqn:H2.
  { destruct r0 as [|b1 r1]; [discriminate|].
    destruct (is_cont b1) eqn:H3; [|discriminate].
    destruct (utf8_decode r1) as [s1|] eqn:Hr; [|discriminate]. injection H as <-.
    apply Forall_cons in Hbytes as [_ Hbytes].
    in_range_hyps. rewrite utf8_char2 by lia.
    constructor; [split; lia|]. apply (IH r1); [simpl; lia | exact Hbytes | exact Hr]. }
  destruct (in_range 224 239 b0) eqn:H4.
  { destruct r0 as [|b1 [|b2 r2]]; try discriminate.
    match type of H with context [if ?c then _ else None] => destruct c eqn:Hok end;
      [|discriminate].
    destruct (utf8_decode r2) as [s2|] eqn:Hr; [|discriminate]. injection H as <-.
    apply Forall_cons in Hbytes as [_ Hbytes]. apply Forall_cons in Hbytes as [_ Hbytes].
    apply andb_true_iff in Hok as [Hok Hc2]. in_range_hyps.
    assert (Hb1 : 128 <= b1 <= 191 /\ (b0 = 224 -> 160 <= b1) /\ (b0 = 237 -> b1 <= 159)).
    { destruct (Z.eqb_spec b0 224); [apply in_range_spec in Hok; lia|].
      destruct (Z.eqb_spec b0 237); apply in_range_spec in Hok; lia. }
    rewrite utf8_char3 by lia.
    constructor; [split; lia|]. apply (IH r2); [simpl; lia | exact Hbytes | exact Hr]. }
  destruct (in_range 240 244 b0) eqn:H5; [|discriminate].
  destruct r0 as [|b1 [|b2 [|b3 r3]]]; try discriminate.
  match type of H with context [if ?c then _ else None] => destruct c eqn:Hok end;
    [|discriminate].
  destruct (utf8_decode r3) as [s3|] eqn:Hr; [|discriminate]. injection H as <-.
  apply Forall_cons in Hbytes as [_ Hbytes]. apply Forall_cons in Hbytes as [_ Hbytes].
  apply Forall_cons in Hbytes as [_ Hbytes].
  apply andb_true_iff in Hok as [Hok Hc3]. apply andb_true_iff in Hok as [Hok Hc2].
  in_range_hyps.
  assert (Hb1 : 128 <= b1 <= 191 /\ (b0 = 240 -> 144 <= b1) /\ (b0 = 244 -> b1 <= 143)).
  { destruct (Z.eqb_spec b0 240); [apply in_range_spec in Hok; lia|].
    destruct (Z.eqb_spec b0 244); apply in_range_spec in Hok; lia. }
  rewrite utf8_char4 by lia.
  constructor; [split; lia|]. apply (IH r3); [simpl; lia | exact Hbytes | exact Hr].
Qed.

(** X1: UTF-8 as the chunker uses it is a bijection between the byte
    strings the strict decoder accepts and the strings of Unicode scalar
    values: decoding yields scalar values, re-encoding gives back the same
    bytes, and the encoding of any string of scalar values decodes back to
    it. *)
Theorem utf8_roundtrip :
  (forall bs s, Forall (fun b => 0 <= b < 256) bs -> utf8_decode bs = Some s ->
     Forall is_scalar s /\ utf8_encode s = bs)
  /\ (forall s, Forall is_scalar s -> utf8_decode (utf8_encode s) = Some s).
Proof.
  split.
  - intros bs s Hb Hd. split; [exact (utf8_decode_scalar bs s Hb Hd)|].
    exact (utf8_encode_of_decode bs s Hd).
  - exact utf8_decode_of_encode.
Qed.


Lemma utf8_decode_ascii bs : Forall (fun b => 0 <= b < 128) bs -> utf8_decode bs = Some bs.
Proof.
  induction 1 as [|b bs Hb _ IH]; [reflexivity|]. simpl.
  rewrite (proj2 (Z.leb_le b 127)) by lia. rewrite IH. reflexivity.
Qed.

Lemma utf8_encode_ascii bs : Forall (fun b => 0 <= b < 128) bs -> utf8_encode bs = bs.
Proof.
  induction 1 as [|b bs Hb _ IH]; [reflexivity|].
  change (utf8_encode (b :: bs)) with (utf8_encode_char b ++ utf8_encode bs).
  unfold utf8_encode_char at 1. rewrite (proj2 (Z.ltb_lt b 128)) by lia.
  rewrite IH. reflexivity.
Qed.

(** X3: for a file that is valid UTF-8, tree-sitter parses exactly the
    file's bytes: the tree comes from [parser content], and the file chunk
    spans all of them. *)
Theorem chunk_code_file_utf8_parses_raw fp content parser decoded :
  utf8_decode content = Some decoded ->
  chunk_code_file fp content parser
  = mkCodeChunk decoded "file" 0 (Z.of_nat (length content))
      (node_start_point (parser content)) (node_end_point (parser content)) fp
    :: chunk_children fp decoded (node_children (parser content)).
Proof.
  intros Hd. unfold chunk_code_file, decode_py.
  rewrite Hd, (utf8_encode_of_decode content decoded Hd). reflexivity.
Qed.

Lemma chunk_code_file_utf8_parses_raw_witness :
  utf8_decode a_py = Some a_py
  /\ chunk_code_file "a.py" a_py (fun _ => a_py_tree)
     = mkCodeChunk a_py "file" 0 (Z.of_nat (length a_py))
         (node_start_point ((fun _ => a_py_tree) a_py))
         (node_end_point ((fun _ => a_py_tree) a_py)) "a.py"
       :: chunk_children "a.py" a_py (node_children ((fun _ => a_py_tree) a_py)).
Proof.
  assert (Hd : utf8_decode a_py = Some a_py) by reflexivity.
  split; [exact Hd|].
  exact (chunk_code_file_utf8_parses_raw "a.py" a_py (fun _ => a_py_tree) a_py Hd).
Defined.

(** X4: on an ASCII file the chunker is exact: the file chunk holds the
    file's bytes, and each function/class chunk holds exactly the bytes at
    its node's offsets, with the node's type and offsets. *)
Theorem chunk_code_file_ascii fp raw parser :
  Forall (fun b => 0 <= b < 128) raw ->
  exists rest,
    chunk_code_file fp raw parser
    = mkCodeChunk raw "file" 0 (Z.of_nat (length raw))
        (node_start_point (parser raw)) (node_end_point (parser raw)) fp :: rest
    /\ Forall2 (fun n c =>
          chunk_type c
            = (if String.eqb (node_type n) "function_definition" then "function" else "class")
          /\ start_byte c = node_start_byte n /\ end_byte c = node_end_byte n
          /\ content c = py_slice raw (node_start_byte n) (node_end_byte n)
          /\ file_path c = fp)
        (List.filter is_def_node (node_children (parser raw))) rest.
Proof.
  intros Ha. unfold chunk_code_file, decode_py.
  rewrite (utf8_decode_ascii raw Ha), (utf8_encode_ascii raw Ha).
  eexists. split; [reflexivity|].
  induction (node_children (parser raw)) as [|n ns IH]; simpl; [constructor|].
  destruct (is_def_node n); simpl; [|exact IH].
  constructor; [repeat split | exact IH].
Qed.

Lemma chunk_code_file_ascii_witness :
  Forall (fun b => 0 <= b < 128) a_py
  /\ exists rest,
    chunk_code_file "a.py" a_py (fun _ => a_py_tree)
    = mkCodeChunk a_py "file" 0 (Z.of_nat (length a_py))
        (node_start_point a_py_tree) (node_end_point a_py_tree) "a.py" :: rest
    /\ Forall2 (fun n c =>
          chunk_type c
            = (if String.eqb (node_type n) "function_definition" then "function" else "class")
          /\ start_byte c = node_start_byte n /\ end_byte c = node_end_byte n
          /\ content c = py_slice a_py (node_start_byte n) (node_end_byte n)
          /\ file_path c = "a.py")
        (List.filter is_def_node (node_children a_py_tree)) rest.
Proof.
  assert (Ha : Forall (fun b => 0 <= b < 128) a_py) by (repeat constructor; lia).
  split; [exact Ha|].
  exact (chunk_code_file_ascii "a.py" a_py (fun _ => a_py_tree) Ha).
Defined.

Lemma chunk_code_file_paths fp raw parser :
  Forall (fun c => file_path c = fp) (chunk_code_file fp raw parser).
Proof.
  unfold chunk_code_file. destruct (decode_py raw) as [d|]; [|constructor].
  constructor; [reflexivity|].
  induction (node_children (parser (utf8_encode d))) as [|n ns IH]; simpl; [constructor|].
  destruct (is_def_node n); [constructor; [reflexivity|]|]; exact IH.
Qed.

Lemma chunk_files_origin E parser g files c :
  In c (chunk_files E parser g files) ->
  exists root file raw,
    In (root, file) files /\ is_ignored (path_join root file) g = false
    /\ read_file E (path_join root file) = Some raw
    /\ In c (chunk_code_file (path_join root file) raw parser).
Proof.
  induction files as [|[root file] rest IH]; simpl; [intros []|].
  intros Hc. apply in_app_iff in Hc as [Hc|Hc].
  - destruct (is_ignored (path_join root file) g) eqn:Hi; [destruct Hc|].
    destruct (read_file E (path_join root file)) as [raw|] eqn:Hr; [|destruct Hc].
    exists root, file, raw. auto.
  - destruct (IH Hc) as (r & f & raw & Hin & Hrest). exists r, f, raw. auto.
Qed.

Lemma not_ignored_no_node_modules fp g :
  is_ignored fp g = false -> ~ In "node_modules"%string (split_slash fp).
Proof.
  unfold is_ignored. intros H Hin. apply orb_false_iff in H as [_ H].
  assert (Hx : existsb (String.eqb "node_modules") (split_slash fp) = true).
  { apply existsb_exists. exists "node_modules"%string. split; [exact Hin|].
    apply String.eqb_refl. }
  congruence.
Qed.

(** X5: every chunk of a repository walk comes from a file the walk listed
    with an accepted extension ([.py] for Python; [.js], [.jsx], [.ts] or
    [.tsx] for TypeScript), not ignored by the [.gitignore] matcher and with
    no [node_modules] path component, that could be read; its [file_path] is
    [os.path.join(root, file)] and it is one of the chunks of that file. *)
Theorem process_repository_chunk_origin E repo_path parser c :
  (In c (process_repository_py E repo_path parser) ->
   exists root file raw,
     In (root, file) (os_walk E repo_path) /\ ends_with file ".py" = true
     /\ file_path c = path_join root file
     /\ is_ignored (file_path c) (gitignore E repo_path) = false
     /\ ~ In "node_modules"%string (split_slash (file_path c))
     /\ read_file E (file_path c) = Some raw
     /\ In c (chunk_code_file (file_path c) raw parser))
  /\ (In c (process_repository_ts E repo_path parser) ->
   exists root file raw,
     In (root, file) (os_walk E repo_path)
     /\ (ends_with file ".js" || ends_with file ".jsx" || ends_with file ".ts"
         || ends_with file ".tsx") = true
     /\ file_path c = path_join root file
     /\ is_ignored (file_path c) (gitignore E repo_path) = false
     /\ ~ In "node_modules"%string (split_slash (file_path c))
     /\ read_file E (file_path c) = Some raw
     /\ In c (chunk_code_file (file_path c) raw parser)).
Proof.
  split; intros Hc;
    [unfold process_repository_py in Hc | unfold process_repository_ts in Hc];
    destruct (chunk_files_origin _ _ _ _ _ Hc) as (root & file & raw & Hin & Hi & Hr & Hcf);
    apply filter_In in Hin as [Hin Hext];
    assert (Hp : file_path c = path_join root file)
      by (pose proof (chunk_code_file_paths (path_join root file) raw parser) as Hf;
          rewrite Forall_forall in Hf; apply Hf; apply list_elem_of_In; exact Hcf);
    exists root, file, raw; rewrite Hp;
    repeat split; auto; apply not_ignored_no_node_modules with (g := gitignore E repo_path);
    exact Hi.
Qed.


(** X6: the edge cases of [get_embeddings]: when no text is non-blank, or
    when [batch_size] is negative ([range] is then empty), the service is
    never called and the result is empty; a zero [batch_size] with some
    non-blank text fails ([range] raises [ValueError]) before any call. *)
Theorem get_embeddings_edge_cases voyage texts batch_size :
  let kept := List.filter strip_nonempty
                (match texts with TStr t => [t] | TList ts => ts end) in
  (kept = [] -> get_embeddings voyage texts batch_size = ([], Some []))
  /\ (batch_size < 0 -> get_embeddings voyage texts batch_size = ([], Some []))
  /\ (batch_size = 0 -> kept <> [] -> get_embeddings voyage texts batch_size = ([], None)).
Proof.
  cbv zeta. unfold get_embeddings.
  set (kept := List.filter strip_nonempty _).
  split; [|split].
  - intros ->. reflexivity.
  - intros Hbs. destruct kept as [|t ts]; [reflexivity|].
    unfold py_batches, py_range0.
    rewrite (proj2 (Z.eqb_neq batch_size 0)) by lia.
    rewrite (proj2 (Z.ltb_lt batch_size 0)) by lia. reflexivity.
  - intros -> Hk. destruct kept as [|t ts]; [congruence|]. reflexivity.
Qed.

Lemma embed_loop_fail voyage batches cs :
  embed_loop voyage batches = (cs, None) ->
  exists pre b post, batches = pre ++ b :: post /\ cs = pre ++ [b]
    /\ Forall (fun b' => voyage b' <> None) pre /\ voyage b = None.
Proof.
  revert cs. induction batches as [|b rest IH]; intros cs H; simpl in H; [discriminate|].
  destruct (voyage b) as [es|] eqn:Hv.
  - destruct (embed_loop voyage rest) as [cs' [r|]] eqn:Hr; [discriminate|].
    injection H as <-. destruct (IH cs' eq_refl) as (pre & b' & post & -> & -> & Hpre & Hb').
    exists (b :: pre), b', post. repeat split; auto.
    constructor; [congruence | exact Hpre].
  - injection H as <-. exists [], b, rest. repeat split; auto.
Qed.

(** X7: a failing call to the embedding service stops [get_embeddings]:
    the batches sent are the batches of the non-blank texts up to and
    including the first one the service refused, every earlier one was
    answered, no later one is sent, and nothing is returned. *)
Theorem get_embeddings_failure_stops voyage texts batch_size cs :
  0 < batch_size ->
  get_embeddings voyage texts batch_size = (cs, None) ->
  exists batches pre b post,
    py_batches (List.filter strip_nonempty
                  (match texts with TStr t => [t] | TList ts => ts end)) batch_size
      = Some batches
    /\ batches = pre ++ b :: post /\ cs = pre ++ [b]
    /\ Forall (fun b' => voyage b' <> None) pre /\ voyage b = None.
Proof.
  intros Hbs H. unfold get_embeddings in H.
  set (kept := List.filter strip_nonempty _) in *.
  destruct (py_batches_spec kept batch_size Hbs) as (batches & Hb & _).
  destruct kept as [|t ts] eqn:Hk; [discriminate|].
  rewrite <- Hk in *. rewrite Hb in H.
  destruct (embed_loop_fail voyage batches cs H) as (pre & b & post & Hbat & Hcs & Hpre & Hv).
  exists batches, pre, b, post. auto.
Qed.

Lemma get_embeddings_failure_stops_witness :
  0 < 2 /\
  exists batches pre b post,
    py_batches (List.filter strip_nonempty [[97]; [32]; [98]; [99]]) 2 = Some batches
    /\ batches = pre ++ b :: post /\ [[[97]; [98]]] = pre ++ [b]
    /\ Forall (fun b' => (fun _ : list (list Z) => @None (list Vec)) b' <> None) pre
    /\ (fun _ : list (list Z) => @None (list Vec)) b = None.
Proof.
  split; [lia|].
  apply (get_embeddings_failure_stops (fun _ => None) (TList [[97]; [32]; [98]; [99]]) 2).
  - lia.
  - reflexivity.
Defined.


Lemma upsert_loop_collection E name batches s s' pts :
  collections s !! name = Some pts ->
  upsert_loop E name batches s = (s', inr tt) ->
  collections s' !! name = Some (foldl (fun m p => <[point_id p := p]> m) pts (concat batches)).
Proof.
  revert s pts. induction batches as [|b rest IH]; intros s pts Hc H; simpl in H.
  - mrun. injection H as <-. exact Hc.
  - unfold mbind at 1, M_bind at 1 in H.
    destruct (upsert E name b s) as [s1 [e|[]]] eqn:Hu; [discriminate|].
    unfold upsert in Hu. mrun. rewrite Hc in Hu.
    destruct (qdrant_upsert E name b); [|discriminate].
    injection Hu as <-. simpl. rewrite foldl_app.
    apply (IH _ _ (lookup_insert_eq _ _ _) H).
Qed.

Lemma foldl_make_points (m : gmap nat PointStruct) k cs es i :
  foldl (fun m p => <[point_id p := p]> m) m (make_points k cs es) !! i
  = if (k <=? i)%nat && (i <? k + length (make_points k cs es))%nat
    then make_points k cs es !! (i - k)%nat else m !! i.
Proof.
  revert k es m. induction cs as [|c cs IH]; intros k es m.
  - simpl. destruct (Nat.leb_spec k i), (Nat.ltb_spec i (k + 0)); simpl; auto; lia.
  - destruct es as [|e es].
    + simpl. destruct (Nat.leb_spec k i), (Nat.ltb_spec i (k + 0)); simpl; auto; lia.
    + cbn [make_points foldl length]. rewrite IH. cbn [point_id].
      destruct (Nat.eq_dec i k) as [->|Hik].
      * rewrite (proj2 (Nat.leb_gt (S k) k)) by lia. simpl.
        rewrite Nat.leb_refl, Nat.sub_diag.
        rewrite (proj2 (Nat.ltb_lt k (k + S (length (make_points (S k) cs es))))) by lia.
        simpl. apply lookup_insert_eq.
      * rewrite lookup_insert_ne by congruence.
        destruct (Nat.leb_spec (S k) i), (Nat.ltb_spec i (S k + length (make_points (S k) cs es)));
          destruct (Nat.leb_spec k i), (Nat.ltb_spec i (k + S (length (make_points (S k) cs es))));
          simpl; try lia; auto.
        replace (i - k)%nat with (S (i - S k)) by lia. reflexivity.
Qed.

(** X8: after a successful indexing run the repository's collection holds
    exactly the new points (the old ones are gone): id [i] maps to the
    [i]-th point built from the chunks and their embeddings, and no other id
    is present; the registry and the other collections are unchanged. *)
Theorem index_repository_collection E name s s' :
  index_repository E name s = (s', inr tt) ->
  exists path language chunks eb embs m,
    REPO_CONFIGS s !! name = Some (CfgDict path language)
    /\ process_repositories E path language
         (if String.eqb language "python" then parse_py E else parse_ts E) = Some chunks
    /\ get_embeddings (voyage E) (TList (map content chunks)) 32 = (eb, Some embs)
    /\ collections s' !! name = Some m
    /\ (forall i, m !! i = make_points 0 chunks embs !! i)
    /\ REPO_CONFIGS s' = REPO_CONFIGS s /\ saved_configs s' = saved_configs s
    /\ (forall k, k <> name -> collections s' !! k = collections s !! k).
Proof.
  intros H.
  destruct (frames_index_repository E name s) as (Hr & Hsv & Hoth & _).
  rewrite H in Hr, Hsv, Hoth. cbn [fst] in Hr, Hsv, Hoth.
  unfold index_repository, embed, clear_collection in H. mrun.
  destruct (REPO_CONFIGS s !! name) as [[path lang|str]|] eqn:Hc; try discriminate.
  destruct (process_repositories E path lang _) as [chunks|] eqn:Hp; [|discriminate].
  destruct (get_embeddings (voyage E) (TList (map content chunks)) 32)
    as [eb [embs|]] eqn:He; [|discriminate].
  simpl in H.
  destruct (collections s !! name) as [pts|] eqn:Hcol; [|discriminate].
  destruct (qdrant_clear_ok E name); [|discriminate].
  unfold store_chunks_multi in H.
  destruct (py_batches (make_points 0 chunks embs) 100) as [ub|] eqn:Hb; [|discriminate].
  apply upsert_loop_collection with (pts := ∅) in H; [|apply lookup_insert_eq].
  match type of H with context [concat ?x] =>
    assert (Hcc : concat x = make_points 0 chunks embs)
      by exact (range_step_concat (make_points 0 chunks embs) 100 ltac:(lia)
                  (length (make_points 0 chunks embs)) 0 ltac:(lia))
  end.
  rewrite Hcc in H.
  eexists path, lang, chunks, eb, embs, _.
  split; [first [reflexivity | exact Hc]|]. split; [first [reflexivity | exact Hp]|].
  split; [first [reflexivity | exact He]|]. split; [exact H|]. split; [|auto].
  intros i. rewrite foldl_make_points, Nat.sub_0_r.
  destruct (Nat.leb_spec 0 i), (Nat.ltb_spec i (0 + length (make_points 0 chunks embs)));
    simpl; [reflexivity|..]; try lia.
  rewrite lookup_empty. symmetry. apply lookup_ge_None_2. lia.
Qed.

Lemma index_repository_collection_witness :
  index_repository demo_env "demo" demo_registered
  = (fst (index_repository demo_env "demo" demo_registered), inr tt)
  /\ exists path language chunks eb embs m,
    REPO_CONFIGS demo_registered !! "demo" = Some (CfgDict path language)
    /\ process_repositories demo_env path language
         (if String.eqb language "python" then parse_py demo_env else parse_ts demo_env)
       = Some chunks
    /\ get_embeddings (voyage demo_env) (TList (map content chunks)) 32 = (eb, Some embs)
    /\ collections (fst (index_repository demo_env "demo" demo_registered)) !! "demo" = Some m
    /\ (forall i, m !! i = make_points 0 chunks embs !! i)
    /\ REPO_CONFIGS (fst (index_repository demo_env "demo" demo_registered))
       = REPO_CONFIGS demo_registered
    /\ saved_configs (fst (index_repository demo_env "demo" demo_registered))
       = saved_configs demo_registered
    /\ (forall k, k <> "demo"%string ->
          collections (fst (index_repository demo_env "demo" demo_registered)) !! k
          = collections demo_registered !! k).
Proof.
  assert (Hr : index_repository demo_env "demo" demo_registered
               = (fst (index_repository demo_env "demo" demo_registered), inr tt))
    by (vm_compute; reflexivity).
  split; [exact Hr|].
  exact (index_repository_collection demo_env "demo" demo_registered _ Hr).
Defined.

(** X9: when the embedding service fails during a reindex, the request
    fails with 500 after the walk and the embedding calls, and nothing else
    has changed: the old points of the collection are kept, since the
    collection is cleared only after the embedding. *)
Theorem reindex_embedding_failure_keeps_points E name s path language chunks eb :
  REPO_CONFIGS s !! name = Some (CfgDict path language) ->
  process_repositories E path language
    (if String.eqb language "python" then parse_py E else parse_ts E) = Some chunks ->
  get_embeddings (voyage E) (TList (map content chunks)) 32 = (eb, None) ->
  reindex_repository E name s
  = (mkAppState (REPO_CONFIGS s) (saved_configs s) (collections s)
       (calls s ++ [CWalk name] ++ map CEmbed eb),
     inl (HTTPException 500 "Failed to reindex repository")).
Proof.
  intros Hc Hp He.
  assert (Hin : name ∈ dom (REPO_CONFIGS s)) by (apply elem_of_dom; eauto).
  unfold reindex_repository. rewrite run_get, (bool_decide_eq_true_2 _ Hin). cbn [negb].
  unfold mbind at 1, M_bind at 1, try_except.
  unfold index_repository. rewrite run_get, Hc.
  unfold mbind, M_bind, log_call. rewrite Hp.
  unfold embed. cbn [REPO_CONFIGS saved_configs collections calls]. rewrite He.
  cbn. rewrite <- app_assoc. reflexivity.
Qed.

Definition demo_walk (E : Env) : list CodeChunk :=
  process_repository_py E "/app/codebase/demo" (parse_py E).

Lemma reindex_embedding_failure_keeps_points_witness :
  let E := demo_env_faulty false true in
  REPO_CONFIGS demo_registered !! "demo" = Some (CfgDict "/app/codebase/demo" "python")
  /\ process_repositories E "/app/codebase/demo" "python"
       (if String.eqb "python" "python" then parse_py E else parse_ts E) = Some (demo_walk E)
  /\ get_embeddings (voyage E) (TList (map content (demo_walk E))) 32
     = (fst (get_embeddings (voyage E) (TList (map content (demo_walk E))) 32), None)
  /\ reindex_repository E "demo" demo_registered
     = (mkAppState (REPO_CONFIGS demo_registered) (saved_configs demo_registered)
          (collections demo_registered)
          (calls demo_registered ++ [CWalk "demo"]
           ++ map CEmbed (fst (get_embeddings (voyage E) (TList (map content (demo_walk E))) 32))),
        inl (HTTPException 500 "Failed to reindex repository")).
Proof.
  cbv zeta.
  assert (H1 : REPO_CONFIGS demo_registered !! "demo"
               = Some (CfgDict "/app/codebase/demo" "python")) by reflexivity.
  assert (H2 : process_repositories (demo_env_faulty false true) "/app/codebase/demo" "python"
       (if String.eqb "python" "python" then parse_py (demo_env_faulty false true)
        else parse_ts (demo_env_faulty false true))
       = Some (demo_walk (demo_env_faulty false true))) by reflexivity.
  assert (H3 : get_embeddings (voyage (demo_env_faulty false true))
                 (TList (map content (demo_walk (demo_env_faulty false true)))) 32
     = (fst (get_embeddings (voyage (demo_env_faulty false true))
               (TList (map content (demo_walk (demo_env_faulty false true)))) 32), None))
    by (vm_compute; reflexivity).
  split; [exact H1|]. split; [exact H2|]. split; [exact H3|].
  exact (reindex_embedding_failure_keeps_points _ _ _ _ _ _ _ H1 H2 H3).
Defined.

(** X10: a registry entry that is a bare string (what a failed [remove]
    leaves behind) makes every reindex of that name fail with 500 before
    any call, leaving the state as it was. *)
Theorem reindex_string_config_fails E name s p :
  REPO_CONFIGS s !! name = Some (CfgStr p) ->
  reindex_repository E name s = (s, inl (HTTPException 500 "Failed to reindex repository")).
Proof.
  intros Hc.
  assert (Hin : name ∈ dom (REPO_CONFIGS s)) by (apply elem_of_dom; eauto).
  unfold reindex_repository. rewrite run_get, (bool_decide_eq_true_2 _ Hin). cbn [negb].
  unfold mbind at 1, M_bind at 1, try_except.
  unfold index_repository. rewrite run_get, Hc. reflexivity.
Qed.

Definition demo_broken : AppState :=
  mkAppState {[ "demo" := CfgStr "" ]} {[ "demo" := CfgDict "/app/codebase/demo" "python" ]}
             {[ "demo" := ∅ ]} [].

Lemma reindex_string_config_fails_witness :
  REPO_CONFIGS demo_broken !! "demo" = Some (CfgStr "")
  /\ reindex_repository demo_env "demo" demo_broken
     = (demo_broken, inl (HTTPException 500 "Failed to reindex repository")).
Proof.
  assert (H : REPO_CONFIGS demo_broken !! "demo" = Some (CfgStr "")) by reflexivity.
  split; [exact H|]. exact (reindex_string_config_fails demo_env "demo" demo_broken "" H).
Defined.

(** X11: whatever its outcome, a reindex never changes the registry or its
    saved copy, never creates or drops a collection, and touches no other
    repository's collection; on an unregistered name it fails with 404
    and changes nothing. *)
Theorem reindex_repository_frame E name s :
  let '(s', r) := reindex_repository E name s in
  REPO_CONFIGS s' = REPO_CONFIGS s /\ saved_configs s' = saved_configs s
  /\ dom (collections s') = dom (collections s)
  /\ (forall k, k <> name -> collections s' !! k = collections s !! k)
  /\ (name ∉ dom (REPO_CONFIGS s) ->
        s' = s /\ r = inl (HTTPException 404 "Repository not found")).
Proof.
  unfold reindex_repository. rewrite run_get.
  destruct (bool_decide (name ∈ dom (REPO_CONFIGS s))) eqn:Hin; cbn [negb].
  - apply bool_decide_eq_true_1 in Hin.
    destruct (frames_index_repository E name s) as (H1 & H2 & H3 & H4).
    unfold mbind at 1, M_bind at 1, try_except.
    destruct (index_repository E name s) as [s1 [e|[]]]; cbn [fst] in *; mrun;
      (split; [exact H1|]); (split; [exact H2|]); (split; [exact H4|]);
      (split; [exact H3|]); intros Hn; contradiction.
  - apply bool_decide_eq_false_1 in Hin. mrun. repeat split; auto.
Qed.

(** X12: a search request only reads: whatever its outcome, the registry,
    its saved copy and the collections are unchanged; on success the
    results are the hits of a logged top-5 search on the collection, one
    result per hit in the same order, carrying the hit's file path, code,
    chunk type and score. *)
Theorem post_search_read_only E q s :
  let '(s', r) := post_search E q s in
  REPO_CONFIGS s' = REPO_CONFIGS s /\ saved_configs s' = saved_configs s
  /\ collections s' = collections s
  /\ (forall res, r = inr res ->
        exists v hits,
          In (CSearch (collection_name q) v 5) (calls s')
          /\ qdrant_search E (collection_name q) v 5 = Some hits
          /\ length res = length hits
          /\ (forall i h, hits !! i = Some h ->
                res !! i = Some (mkSearchResult (file_path (hit_payload h))
                                   (content (hit_payload h)) (chunk_type (hit_payload h))
                                   (score h)))).
Proof.
  unfold post_search.
  destruct (strip_nonempty (text q)) eqn:Ht; cbn [negb].
  - unfold search. rewrite run_get.
    destruct (bool_decide (collection_name q ∈ dom (REPO_CONFIGS s))) eqn:Hin; cbn [negb].
    + unfold embed.
      destruct (get_embeddings (voyage E) (TStr (text q)) default_batch_size)
        as [cs [[|v es]|]]; mrun;
        [repeat split; auto; intros res Hr; discriminate| |
         repeat split; auto; intros res Hr; discriminate].
      destruct (qdrant_search E (collection_name q) v 5) as [hits|] eqn:Hs; mrun;
        [|repeat split; auto; intros res Hr; discriminate].
      repeat split; auto. intros res Hr. injection Hr as <-.
      exists v, hits. split; [repeat rewrite in_app_iff; simpl; tauto|].
      split; [exact Hs|]. split; [apply length_map|].
      intros i h Hh. rewrite map_lookup, Hh. reflexivity.
    + mrun. repeat split; auto. intros res Hr. discriminate.
  - mrun. repeat split; auto. intros res Hr. discriminate.
Qed.


Lemma create_collection_inr E name s s2 :
  create_collection E name s = (s2, inr tt) ->
  name ∉ dom (collections s) /\ qdrant_create_ok E name = true
  /\ s2 = mkAppState (REPO_CONFIGS s) (saved_configs s) (<[name := ∅]> (collections s))
                     (calls s ++ [CCreate name]).
Proof.
  unfold create_collection. mrun.
  destruct (bool_decide (name ∈ dom (collections s))) eqn:Hb;
    destruct (qdrant_create_ok E name) eqn:Hok; cbn; intros H; inversion H; subst.
  apply bool_decide_eq_false_1 in Hb. auto.
Qed.

Lemma create_collection_inl E name s s2 e :
  create_collection E name s = (s2, inl e) ->
  s2 = mkAppState (REPO_CONFIGS s) (saved_configs s) (collections s) (calls s ++ [CCreate name]).
Proof.
  unfold create_collection. mrun.
  destruct (bool_decide (name ∈ dom (collections s)));
    destruct (qdrant_create_ok E name); cbn; intros H; inversion H; subst; reflexivity.
Qed.

(** ** Extras on [manage_repository] *)

(** X13: a successful [add] happened on a name that was not registered, for
    a path that exists; afterwards the name is registered with the given
    path and language, the saved copy equals the registry, the name has a
    collection it did not have before, and every other collection is as it
    was. *)
Theorem manage_add_success E a s s' m :
  action a = "add" ->
  manage_repository E a s = (s', inr m) ->
  m = "added and indexed successfully"
  /\ repo_name a ∉ dom (REPO_CONFIGS s) /\ path_exists E (repo_path a) = true
  /\ REPO_CONFIGS s' = <[repo_name a := CfgDict (repo_path a) (language a)]> (REPO_CONFIGS s)
  /\ saved_configs s' = REPO_CONFIGS s'
  /\ repo_name a ∉ dom (collections s) /\ repo_name a ∈ dom (collections s')
  /\ (forall k, k <> repo_name a -> collections s' !! k = collections s !! k).
Proof.
  intros Ha H. unfold manage_repository in H. rewrite Ha, String.eqb_refl, run_get in H.
  destruct (bool_decide (repo_name a ∈ dom (REPO_CONFIGS s))) eqn:Hin;
    [cbv [raise] in H; discriminate|].
  apply bool_decide_eq_false_1 in Hin.
  destruct (path_exists E (repo_path a)) eqn:Hp; cbn [negb] in H; [|cbv [raise] in H; discriminate].
  erewrite run_bind_inr in H by reflexivity.
  set (s1 := mkAppState (<[repo_name a := CfgDict (repo_path a) (language a)]> (REPO_CONFIGS s))
                        (saved_configs s) (collections s) (calls s)) in H.
  destruct (create_collection E (repo_name a) s1) as [s2 [e|[]]] eqn:Hc.
  { unfold mbind at 1, M_bind at 1 in H. rewrite (run_try_inl _ _ _ _ _ Hc) in H.
    mrun. discriminate. }
  erewrite run_bind_inr in H by (apply run_try_inr; exact Hc).
  apply create_collection_inr in Hc as (Hnc & Hok & ->). cbn [REPO_CONFIGS saved_configs collections calls s1] in H.
  set (s2 := mkAppState _ _ _ _) in H.
  destruct (frames_index_repository E (repo_name a) s2) as (H1 & H2 & H3 & H4).
  destruct (index_repository E (repo_name a) s2) as [s3 [e|[]]] eqn:Hi.
  { unfold mbind at 1, M_bind at 1 in H. rewrite (run_try_inl _ _ _ _ _ Hi) in H.
    mrun. rewrite delete_collection_run in H.
    destruct (qdrant_delete_ok E (repo_name a)); discriminate. }
  erewrite run_bind_inr in H by (apply run_try_inr; exact Hi).
  cbv [save_repo_configs mbind M_bind mret M_ret] in H. injection H as <- <-.
  cbn [fst] in H1, H2, H3, H4. cbn [REPO_CONFIGS saved_configs collections calls s2] in *.
  split; [reflexivity|]. split; [exact Hin|]. split; [reflexivity|].
  split; [exact H1|]. split; [reflexivity|]. split; [exact Hnc|].
  split.
  - rewrite H4, dom_insert_L. apply elem_of_union_l, elem_of_singleton. reflexivity.
  - intros k Hk. rewrite H3 by exact Hk. apply lookup_insert_ne. auto.
Qed.

Lemma manage_add_success_witness :
  action add_demo = "add"
  /\ manage_repository demo_env add_demo empty_state
     = (fst (manage_repository demo_env add_demo empty_state), inr "added and indexed successfully")
  /\ let s' := fst (manage_repository demo_env add_demo empty_state) in
  "added and indexed successfully" = "added and indexed successfully"
  /\ repo_name add_demo ∉ dom (REPO_CONFIGS empty_state)
  /\ path_exists demo_env (repo_path add_demo) = true
  /\ REPO_CONFIGS s' = <[repo_name add_demo := CfgDict (repo_path add_demo) (language add_demo)]>
                         (REPO_CONFIGS empty_state)
  /\ saved_configs s' = REPO_CONFIGS s'
  /\ repo_name add_demo ∉ dom (collections empty_state)
  /\ repo_name add_demo ∈ dom (collections s')
  /\ (forall k, k <> repo_name add_demo -> collections s' !! k = collections empty_state !! k).
Proof.
  assert (Ha : action add_demo = "add") by reflexivity.
  assert (H : manage_repository demo_env add_demo empty_state
     = (fst (manage_repository demo_env add_demo empty_state), inr "added and indexed successfully"))
    by (vm_compute; reflexivity).
  split; [exact Ha|]. split; [exact H|].
  exact (manage_add_success demo_env add_demo empty_state _ _ Ha H).
Defined.

(** X14: a successful [remove] happened on a registered name whose
    collection Qdrant deleted; afterwards the name is gone from the
    registry and from the collections, nothing else changed, and the saved
    copy equals the registry. *)
Theorem manage_remove_success E a s s' m :
  action a = "remove" ->
  manage_repository E a s = (s', inr m) ->
  m = "removed successfully"
  /\ repo_name a ∈ dom (REPO_CONFIGS s) /\ qdrant_delete_ok E (repo_name a) = true
  /\ REPO_CONFIGS s' = delete (repo_name a) (REPO_CONFIGS s)
  /\ saved_configs s' = REPO_CONFIGS s'
  /\ collections s' = delete (repo_name a) (collections s).
Proof.
  intros Ha H. unfold manage_repository, delete_collection in H. rewrite Ha in H. mrun.
  destruct (bool_decide (repo_name a ∈ dom (REPO_CONFIGS s))) eqn:Hin; cbn in H; [|discriminate].
  apply bool_decide_eq_true_1 in Hin.
  destruct (qdrant_delete_ok E (repo_name a)) eqn:Hd; cbn in H; [|discriminate].
  injection H as <- <-. cbn. auto 10.
Qed.

Lemma manage_remove_success_witness :
  action remove_demo = "remove"
  /\ manage_repository demo_env remove_demo demo_registered
     = (fst (manage_repository demo_env remove_demo demo_registered), inr "removed successfully")
  /\ let s' := fst (manage_repository demo_env remove_demo demo_registered) in
  "removed successfully" = "removed successfully"
  /\ repo_name remove_demo ∈ dom (REPO_CONFIGS demo_registered)
  /\ qdrant_delete_ok demo_env (repo_name remove_demo) = true
  /\ REPO_CONFIGS s' = delete (repo_name remove_demo) (REPO_CONFIGS demo_registered)
  /\ saved_configs s' = REPO_CONFIGS s'
  /\ collections s' = delete (repo_name remove_demo) (collections demo_registered).
Proof.
  assert (Ha : action remove_demo = "remove") by reflexivity.
  assert (H : manage_repository demo_env remove_demo demo_registered
     = (fst (manage_repository demo_env remove_demo demo_registered), inr "removed successfully"))
    by (vm_compute; reflexivity).
  split; [exact Ha|]. split; [exact H|].
  exact (manage_remove_success demo_env remove_demo demo_registered _ _ Ha H).
Defined.

(** X15: the requests [manage_repository] turns down before touching
    anything: [add] on a registered name (400), [add] on a path that does
    not exist (400), [remove] on an unregistered name (404); an action
    that is neither [add] nor [remove] returns [null]. In each case the
    state, the log of calls included, is unchanged. *)
Theorem manage_repository_rejections E a s :
  (action a = "add" -> repo_name a ∈ dom (REPO_CONFIGS s) ->
     manage_repository E a s = (s, inl (HTTPException 400 "Repository already exists")))
  /\ (action a = "add" -> repo_name a ∉ dom (REPO_CONFIGS s) -> path_exists E (repo_path a) = false ->
     manage_repository E a s = (s, inl (HTTPException 400 "Repository path does not exist")))
  /\ (action a = "remove" -> repo_name a ∉ dom (REPO_CONFIGS s) ->
     manage_repository E a s = (s, inl (HTTPException 404 "Repository not found")))
  /\ (action a <> "add" -> action a <> "remove" -> manage_repository E a s = (s, inr "null")).
Proof.
  unfold manage_repository. split; [|split; [|split]].
  - intros Ha Hin. rewrite Ha, String.eqb_refl, run_get, (bool_decide_eq_true_2 _ Hin). reflexivity.
  - intros Ha Hin Hp. rewrite Ha, String.eqb_refl, run_get, (bool_decide_eq_false_2 _ Hin), Hp.
    reflexivity.
  - intros Ha Hin. rewrite Ha. cbn [String.eqb Ascii.eqb Bool.eqb andb]. rewrite run_get.
    rewrite (bool_decide_eq_false_2 _ Hin). reflexivity.
  - intros Ha Hr. apply String.eqb_neq in Ha, Hr. rewrite Ha, Hr. reflexivity.
Qed.

(** What a computation can return when it succeeds. *)
Definition returns_only {A} (P : A -> Prop) (m : M A) : Prop :=
  forall s s' x, m s = (s', inr x) -> P x.

Lemma returns_only_bind {A B} (P : B -> Prop) (m : M A) (k : A -> M B) :
  (forall x, returns_only P (k x)) -> returns_only P (m ≫= k).
Proof.
  intros Hk s s' y. unfold mbind, M_bind.
  destruct (m s) as [s1 [e|x]]; [discriminate|]. apply Hk.
Qed.

Lemma returns_only_ret {A} (P : A -> Prop) x : P x -> returns_only P (mret x).
Proof. intros Hx s s' y H. injection H as _ <-. exact Hx. Qed.

Lemma returns_only_raise {A} (P : A -> Prop) e : returns_only P (raise e).
Proof. intros s s' y H. discriminate. Qed.

Lemma manage_repository_messages E a :
  action a = "add" \/ action a = "remove" ->
  returns_only (fun m => m = "added and indexed successfully" \/ m = "removed successfully")
    (manage_repository E a).
Proof.
  intros Ha. unfold manage_repository.
  destruct Ha as [Ha|Ha]; rewrite Ha; cbn [String.eqb Ascii.eqb Bool.eqb andb];
    apply returns_only_bind; intros s.
  - destruct (bool_decide (repo_name a ∈ dom (REPO_CONFIGS s))); [apply returns_only_raise|].
    destruct (negb (path_exists E (repo_path a))); [apply returns_only_raise|].
    do 4 (apply returns_only_bind; intros _). apply returns_only_ret. left; reflexivity.
  - destruct (negb (bool_decide (repo_name a ∈ dom (REPO_CONFIGS s)))); [apply returns_only_raise|].
    do 3 (apply returns_only_bind; intros _). apply returns_only_ret. right; reflexivity.
Qed.

(** X17: request validation of [POST /repositories] and [POST /reindex]:
    an action other than [add] or [remove] is refused with 422, then a
    blank repository name with 422, before the handler runs and with the
    state unchanged; a request that gets through and succeeds answers with
    the [add] or the [remove] message (never [null]); a blank name sent to
    [/reindex] is refused with 422 and the state unchanged. *)
Theorem request_validation E a name s :
  (action a <> "add" -> action a <> "remove" ->
     post_repositories E a s = (s, inl (HTTPException 422 "Action must be either add or remove")))
  /\ (action a = "add" \/ action a = "remove" -> strip_nonempty (str_codes (repo_name a)) = false ->
     post_repositories E a s = (s, inl (HTTPException 422 "Repository name must not be empty")))
  /\ (forall s' m, post_repositories E a s = (s', inr m) ->
        m = "added and indexed successfully" \/ m = "removed successfully")
  /\ (strip_nonempty (str_codes name) = false ->
     post_reindex E name s = (s, inl (HTTPException 422 "Repository name must not be empty"))).
Proof.
  split; [|split; [|split]].
  - intros Ha Hr. unfold post_repositories, validate_repository_action.
    apply String.eqb_neq in Ha, Hr. rewrite Ha, Hr. reflexivity.
  - intros Ha Hb. unfold post_repositories, validate_repository_action.
    rewrite Hb. destruct Ha as [Ha|Ha]; rewrite Ha; reflexivity.
  - intros s' m H. unfold post_repositories, validate_repository_action in H.
    destruct (String.eqb (action a) "add") eqn:Ha; destruct (String.eqb (action a) "remove") eqn:Hr;
      cbn [orb negb] in H; try discriminate;
      (destruct (strip_nonempty (str_codes (repo_name a))); cbn [negb] in H; [|discriminate]);
      (eapply (manage_repository_messages E a); [|exact H]);
      apply String.eqb_eq in Ha || apply String.eqb_eq in Hr; auto.
  - intros Hb. unfold post_reindex. rewrite Hb. reflexivity.
Qed.

(** X18: an [add] whose language is neither [python] nor [typescript] never
    succeeds and never reaches the embedding service or the upsert: the
    indexing stops with [ValueError] right after the walk is logged, the
    name is unregistered again, the saved copy is untouched, and the only
    calls made are the creation, the walk and the compensating deletion of
    the collection (or fewer, when an earlier step refuses). *)
Theorem manage_add_unsupported_language E a s :
  action a = "add" -> language a <> "python" -> language a <> "typescript" ->
  let '(s', r) := manage_repository E a s in
  (exists e, r = inl e)
  /\ REPO_CONFIGS s' = REPO_CONFIGS s /\ saved_configs s' = saved_configs s
  /\ (calls s' = calls s \/ calls s' = calls s ++ [CCreate (repo_name a)]
      \/ calls s' = calls s ++ [CCreate (repo_name a); CWalk (repo_name a); CDelete (repo_name a)]).
Proof.
  intros Ha Hpy Hts. unfold manage_repository. rewrite Ha, String.eqb_refl, run_get.
  destruct (bool_decide (repo_name a ∈ dom (REPO_CONFIGS s))) eqn:Hin.
  { cbv [raise]. eauto 6. }
  apply bool_decide_eq_false_1 in Hin.
  destruct (path_exists E (repo_path a)); cbn [negb]; [|cbv [raise]; eauto 6].
  erewrite run_bind_inr by reflexivity.
  assert (Hdel : delete (repo_name a)
                   (<[repo_name a := CfgDict (repo_path a) (language a)]> (REPO_CONFIGS s))
                 = REPO_CONFIGS s) by (apply delete_insert_id; by apply not_elem_of_dom).
  set (s1 := mkAppState (<[repo_name a := CfgDict (repo_path a) (language a)]> (REPO_CONFIGS s))
                        (saved_configs s) (collections s) (calls s)).
  destruct (create_collection E (repo_name a) s1) as [s2 [e|[]]] eqn:Hc.
  { unfold mbind at 1, M_bind at 1. rewrite (run_try_inl _ _ _ _ _ Hc).
    apply create_collection_inl in Hc. subst s2. mrun. split; [eauto|]. split; [exact Hdel|]. split; [reflexivity|]. right; left; reflexivity. }
  erewrite run_bind_inr by (apply run_try_inr; exact Hc).
  apply create_collection_inr in Hc as (Hnc & Hok & ->).
  cbn [REPO_CONFIGS saved_configs collections calls s1].
  unfold mbind at 1, M_bind at 1, try_except at 1.
  unfold index_repository. rewrite run_get. cbn [REPO_CONFIGS]. rewrite lookup_insert_eq.
  unfold process_repositories.
  apply String.eqb_neq in Hpy, Hts. rewrite Hpy, Hts.
  mrun. rewrite delete_collection_run. cbn [REPO_CONFIGS]. rewrite Hdel.
  destruct (qdrant_delete_ok E (repo_name a)); cbn;
    (split; [eauto|]); (split; [reflexivity|]); (split; [reflexivity|]);
    right; right; rewrite <- !app_assoc; reflexivity.
Qed.

Definition add_demo_unsupported : RepositoryAction :=
  mkRepositoryAction "add" "demo" "/app/codebase/demo" "rust".

Lemma manage_add_unsupported_language_witness :
  action add_demo_unsupported = "add" /\ language add_demo_unsupported <> "python"
  /\ language add_demo_unsupported <> "typescript"
  /\ let '(s', r) := manage_repository demo_env add_demo_unsupported empty_state in
  (exists e, r = inl e)
  /\ REPO_CONFIGS s' = REPO_CONFIGS empty_state /\ saved_configs s' = saved_configs empty_state
  /\ (calls s' = calls empty_state
      \/ calls s' = calls empty_state ++ [CCreate (repo_name add_demo_unsupported)]
      \/ calls s' = calls empty_state ++ [CCreate (repo_name add_demo_unsupported);
                     CWalk (repo_name add_demo_unsupported); CDelete (repo_name add_demo_unsupported)]).
Proof.
  assert (Ha : action add_demo_unsupported = "add") by reflexivity.
  assert (Hp : language add_demo_unsupported <> "python") by discriminate.
  assert (Ht : language add_demo_unsupported <> "typescript") by discriminate.
  split; [exact Ha|]. split; [exact Hp|]. split; [exact Ht|].
  exact (manage_add_unsupported_language demo_env add_demo_unsupported empty_state Ha Hp Ht).
Defined.

Lemma initialize_qdrant_ok E l s :
  NoDup l ->
  (forall n, n ∈ l -> qdrant_create_ok E n = true) ->
  (forall n, n ∈ l -> n ∉ dom (collections s)) ->
  exists c,
    initialize_qdrant E l s
    = (mkAppState (REPO_CONFIGS s) (saved_configs s) c (calls s ++ map CCreate l), inr tt)
    /\ forall k, c !! k = if decide (k ∈ l) then Some ∅ else collections s !! k.
Proof.
  revert s. induction l as [|n l IH]; intros s Hnd Hok Hfresh.
  - exists (collections s). rewrite app_nil_r. split; [destruct s; reflexivity|].
    intros k. rewrite decide_False by apply not_elem_of_nil. reflexivity.
  - inversion Hnd as [|? ? Hn Hnd']; subst.
    cbn [initialize_qdrant].
    rewrite (run_bind_inr _ _ _ _ _ (create_collection_ok E n s
               (Hfresh n (list_elem_of_here n l)) (Hok n (list_elem_of_here n l)))).
    edestruct (IH (mkAppState (REPO_CONFIGS s) (saved_configs s) (<[n := ∅]> (collections s))
                     (calls s ++ [CCreate n]))) as (c & Hrun & Hc).
    + exact Hnd'.
    + intros k Hk. apply Hok. apply list_elem_of_further. exact Hk.
    + intros k Hk. cbn [collections]. rewrite dom_insert_L, not_elem_of_union, not_elem_of_singleton.
      split; [intros ->; contradiction|]. apply Hfresh. apply list_elem_of_further. exact Hk.
    + exists c. rewrite Hrun. cbn [REPO_CONFIGS saved_configs calls]. rewrite <- app_assoc.
      split; [reflexivity|]. intros k. rewrite Hc. cbn [collections].
      destruct (decide (k = n)) as [->|Hk].
      * rewrite (decide_False _ _ Hn), (decide_True _ _ (list_elem_of_here n l)).
        apply lookup_insert_eq.
      * rewrite lookup_insert_ne by auto.
        destruct (decide (k ∈ l)) as [Hkl|Hkl].
        -- rewrite decide_True by (apply list_elem_of_further; exact Hkl). reflexivity.
        -- rewrite decide_False; [reflexivity|]. rewrite elem_of_cons. tauto.
Qed.

Lemma initialize_qdrant_existing E l s n :
  n ∈ l -> n ∈ dom (collections s) ->
  snd (initialize_qdrant E l s) = inl (PyException "UnexpectedResponse").
Proof.
  revert s. induction l as [|m l IH]; intros s Hn Hc; [apply not_elem_of_nil in Hn; contradiction|].
  cbn [initialize_qdrant]. unfold create_collection. mrun.
  destruct (bool_decide (m ∈ dom (collections s))) eqn:Hm; [reflexivity|].
  destruct (qdrant_create_ok E m); [|reflexivity]. cbn [negb orb].
  apply bool_decide_eq_false_1 in Hm.
  apply elem_of_cons in Hn as [->|Hn]; [contradiction|].
  apply IH; [exact Hn|]. cbn [collections]. rewrite dom_insert_L. apply elem_of_union_r. exact Hc.
Qed.

(** X19: start-up with a [repo_configs.json] against a Qdrant that accepts
    every creation and holds no collection of a saved name: it succeeds,
    the registry in memory is the saved one, every saved name gets an
    empty collection (one creation call per name), and the other
    collections are untouched. *)
Theorem startup_fresh E s :
  (forall n, n ∈ dom (saved_configs s) -> qdrant_create_ok E n = true) ->
  (forall n, n ∈ dom (saved_configs s) -> n ∉ dom (collections s)) ->
  let '(s', r) := startup E true s in
  r = inr tt
  /\ REPO_CONFIGS s' = saved_configs s /\ saved_configs s' = saved_configs s
  /\ calls s' = calls s ++ map CCreate (elements (dom (saved_configs s)))
  /\ (forall n, n ∈ dom (saved_configs s) -> collections s' !! n = Some ∅)
  /\ (forall n, n ∉ dom (saved_configs s) -> collections s' !! n = collections s !! n).
Proof.
  intros Hok Hfresh. unfold startup. rewrite run_get. erewrite run_bind_inr by reflexivity.
  edestruct (initialize_qdrant_ok E (elements (dom (saved_configs s)))
               (mkAppState (saved_configs s) (saved_configs s) (collections s) (calls s)))
    as (c & Hrun & Hc).
  - apply NoDup_elements.
  - intros n Hn. apply Hok. apply elem_of_elements. exact Hn.
  - intros n Hn. apply Hfresh. apply elem_of_elements. exact Hn.
  - rewrite Hrun. cbn [REPO_CONFIGS saved_configs collections calls].
    split; [reflexivity|]. split; [reflexivity|]. split; [reflexivity|]. split; [reflexivity|].
    split.
    + intros n Hn. rewrite Hc. rewrite decide_True; [reflexivity|]. apply elem_of_elements. exact Hn.
    + intros n Hn. rewrite Hc. rewrite decide_False; [reflexivity|].
      rewrite elem_of_elements. exact Hn.
Qed.

Lemma startup_fresh_witness :
  (forall n, n ∈ dom (saved_configs (mkAppState ∅ (saved_configs demo_registered) ∅ [])) ->
     qdrant_create_ok demo_env n = true)
  /\ (forall n, n ∈ dom (saved_configs (mkAppState ∅ (saved_configs demo_registered) ∅ [])) ->
     n ∉ dom (collections (mkAppState ∅ (saved_configs demo_registered) ∅ [])))
  /\ let s := mkAppState ∅ (saved_configs demo_registered) ∅ [] in
  let '(s', r) := startup demo_env true s in
  r = inr tt
  /\ REPO_CONFIGS s' = saved_configs s /\ saved_configs s' = saved_configs s
  /\ calls s' = calls s ++ map CCreate (elements (dom (saved_configs s)))
  /\ (forall n, n ∈ dom (saved_configs s) -> collections s' !! n = Some ∅)
  /\ (forall n, n ∉ dom (saved_configs s) -> collections s' !! n = collections s !! n).
Proof.
  assert (H1 : forall n, n ∈ dom (saved_configs (mkAppState ∅ (saved_configs demo_registered) ∅ [])) ->
     qdrant_create_ok demo_env n = true) by (intros n _; reflexivity).
  assert (H2 : forall n, n ∈ dom (saved_configs (mkAppState ∅ (saved_configs demo_registered) ∅ [])) ->
     n ∉ dom (collections (mkAppState ∅ (saved_configs demo_registered) ∅ [])))
    by (intros n _; cbn [collections]; rewrite dom_empty_L; apply not_elem_of_empty).
  split; [exact H1|]. split; [exact H2|].
  exact (startup_fresh demo_env (mkAppState ∅ (saved_configs demo_registered) ∅ []) H1 H2).
Defined.

(** X20: start-up with a [repo_configs.json] naming a repository whose
    collection Qdrant already holds fails: [create_collection] raises
    [UnexpectedResponse] (the collection exists) and the module cannot be
    loaded. *)
Theorem startup_existing_collection E s n :
  n ∈ dom (saved_configs s) -> n ∈ dom (collections s) ->
  snd (startup E true s) = inl (PyException "UnexpectedResponse").
Proof.
  intros Hs Hc. unfold startup. rewrite run_get. erewrite run_bind_inr by reflexivity.
  apply (initialize_qdrant_existing E _ _ n); [apply elem_of_elements; exact Hs | exact Hc].
Qed.

Lemma startup_existing_collection_witness :
  "demo" ∈ dom (saved_configs demo_registered) /\ "demo" ∈ dom (collections demo_registered)
  /\ snd (startup demo_env true demo_registered) = inl (PyException "UnexpectedResponse").
Proof.
  assert (H1 : "demo" ∈ dom (saved_configs demo_registered))
    by (cbn [saved_configs demo_registered]; rewrite dom_singleton_L; apply elem_of_singleton; reflexivity).
  assert (H2 : "demo" ∈ dom (collections demo_registered))
    by (cbn [collections demo_registered]; rewrite dom_singleton_L; apply elem_of_singleton; reflexivity).
  split; [exact H1|]. split; [exact H2|].
  exact (startup_existing_collection demo_env demo_registered "demo" H1 H2).
Defined.


(** ** Extras on the watcher *)

Lemma process_events_cases trigger_ok w now :
  let '(w1, ts) := process_events trigger_ok w now in
  (ts = [] /\ w1 = w)
  \/ (now - last_processed_time w > 5000 /\ last_processed_time w1 = now
      /\ pending_events w1 = ∅
      /\ ts = map (fun n => (n, trigger_ok now n)) (elements (pending_events w))).
Proof.
  unfold process_events.
  destruct (now - last_processed_time w >? 5000) eqn:Ht; cbn [andb]; [|left; auto].
  destruct (bool_decide (pending_events w = ∅)); cbn [negb]; [left; auto|].
  right. apply Z.gtb_lt in Ht. repeat split; auto. lia.
Qed.

Lemma trigger_obs_lookup (ts : list (string * bool)) now k o :
  map (fun '(n, ok) => OTrigger n now ok) ts !! k = Some o ->
  exists n b, o = OTrigger n now b /\ ts !! k = Some (n, b).
Proof.
  rewrite list_lookup_fmap. destruct (ts !! k) as [[n b]|]; cbn; [|discriminate].
  intros H. injection H as <-. eauto.
Qed.

(** X22: the flushes that send triggers are throttled: over any run, each
    trigger is labelled with the [current_time] at which its flush started,
    every such time is more than 5 s after the watcher's initial
    [last_processed_time], and the start times of two different flushes
    are more than 5 s apart (two triggers carry the same time or times more
    than 5 s apart), however the ticks and events are timed. *)
Theorem watcher_trigger_spacing trigger_ok w inputs :
  let obs := snd (watcher_run trigger_ok w inputs) in
  (forall i n t b, obs !! i = Some (OTrigger n t b) -> t - last_processed_time w > 5000)
  /\ (forall i j n1 n2 t1 t2 b1 b2, (i < j)%nat ->
        obs !! i = Some (OTrigger n1 t1 b1) -> obs !! j = Some (OTrigger n2 t2 b2) ->
        t1 = t2 \/ t2 - t1 > 5000).
Proof.
  cbv zeta. revert w. induction inputs as [|inp rest IH]; intros w; cbn [watcher_run].
  { cbn [snd]. split; intros *; rewrite lookup_nil; discriminate. }
  destruct (watcher_step trigger_ok w inp) as [w1 ts] eqn:Hstep.
  specialize (IH w1). destruct (watcher_run trigger_ok w1 rest) as [w2 obs] eqn:Hrun.
  cbn [snd] in *. destruct IH as [IH1 IH2].
  set (here := match inp with
               | WEvent false src_path arrival => [OEvent (repo_of_path src_path) arrival]
               | WEvent true _ _ => []
               | WTick now => map (fun '(n, ok) => OTrigger n now ok) ts
               end).
  (* what the step shows: triggers of this step all at one time, later than
     the previous flush by more than 5 s, and the new flush time *)
  assert (Hhere : exists now, last_processed_time w <= last_processed_time w1
            /\ (forall k n t b, here !! k = Some (OTrigger n t b) ->
                  t = now /\ now - last_processed_time w > 5000 /\ last_processed_time w1 = now)).
  { destruct inp as [[|] src_path arrival|now]; cbn [watcher_step] in Hstep.
    - injection Hstep as <- <-. exists 0. split; [lia|]. intros k n t b H. subst here.
      cbn in H. try rewrite lookup_nil in H. discriminate.
    - injection Hstep as <- <-. exists 0. split; [cbn; lia|]. intros k n t b H. subst here.
      destruct k as [|k]; cbn in H; [discriminate|try rewrite lookup_nil in H; discriminate].
    - exists now. pose proof (process_events_cases trigger_ok w now) as Hc. rewrite Hstep in Hc.
      destruct Hc as [[-> ->]|(Ht & Hl & _ & ->)].
      + split; [lia|]. intros k n t b H. subst here. cbn in H. try rewrite lookup_nil in H.
        discriminate.
      + split; [lia|]. intros k n t b H. subst here.
        apply trigger_obs_lookup in H as (m & b' & Ho & _). injection Ho as _ <- _. auto. }
  destruct Hhere as (now & Hle & Hh).
  split.
  - intros i n t b Hi. destruct (decide (i < length here)%nat) as [Hlt|Hge].
    + rewrite lookup_app_l in Hi by exact Hlt. destruct (Hh _ _ _ _ Hi) as (-> & H & _). exact H.
    + rewrite lookup_app_r in Hi by lia. specialize (IH1 _ _ _ _ Hi). lia.
  - intros i j n1 n2 t1 t2 b1 b2 Hij Hi Hj.
    destruct (decide (j < length here)%nat) as [Hj'|Hj'].
    + rewrite lookup_app_l in Hi by lia. rewrite lookup_app_l in Hj by exact Hj'.
      destruct (Hh _ _ _ _ Hi) as (-> & _). destruct (Hh _ _ _ _ Hj) as (-> & _). auto.
    + rewrite lookup_app_r in Hj by lia.
      destruct (decide (i < length here)%nat) as [Hi'|Hi'].
      * rewrite lookup_app_l in Hi by exact Hi'.
        destruct (Hh _ _ _ _ Hi) as (-> & _ & Hl). specialize (IH1 _ _ _ _ Hj). right. lia.
      * rewrite lookup_app_r in Hi by lia.
        exact (IH2 (i - length here)%nat (j - length here)%nat _ _ _ _ _ _ ltac:(lia) Hi Hj).
Qed.

Lemma list_ascii_of_string_append (s1 s2 : string) :
  String.list_ascii_of_string (s1 +:+ s2)
  = String.list_ascii_of_string s1 ++ String.list_ascii_of_string s2.
Proof.
  induction s1 as [|c s1 IH]; [reflexivity|].
  change (String c s1 +:+ s2) with (String c (s1 +:+ s2)). cbn. rewrite IH. reflexivity.
Qed.

Lemma take_while_app_all {A} (p : A -> bool) l r :
  Forall (fun x => p x = true) l -> take_while p (l ++ r) = l ++ take_while p r.
Proof. induction 1 as [|x l Hx _ IH]; [reflexivity|]. cbn. rewrite Hx, IH. reflexivity. Qed.

Lemma drop_while_app_all {A} (p : A -> bool) l r :
  Forall (fun x => p x = true) l -> drop_while p (l ++ r) = drop_while p r.
Proof. induction 1 as [|x l Hx _ IH]; [reflexivity|]. cbn. rewrite Hx, IH. reflexivity. Qed.

Lemma noslash_forall (l : list ascii) :
  ~ In "/"%char l -> Forall (fun c => negb (is_sep c) = true) l.
Proof.
  intros H. apply List.Forall_forall. intros c Hc.
  unfold is_sep. destruct (Ascii.eqb_spec c "/"%char) as [->|]; [contradiction|reflexivity].
Qed.

(** On a path [R/P/F] whose last two components [P] and [F] hold no
    separator and [P] is nonempty, [basename(dirname(.))] is [P]. *)
Lemma basename_dirname_parent (R P F : list ascii) :
  P <> [] ->
  Forall (fun c => negb (is_sep c) = true) P ->
  Forall (fun c => negb (is_sep c) = true) F ->
  py_basename (py_dirname (R ++ "/"%char :: P ++ "/"%char :: F)) = P.
Proof.
  intros Hne HP HF. unfold py_dirname, py_basename.
  assert (E : List.rev (R ++ "/"%char :: P ++ "/"%char :: F)
              = List.rev F ++ "/"%char :: List.rev P ++ "/"%char :: List.rev R).
  { rewrite rev_app_distr. cbn [List.rev]. rewrite rev_app_distr. cbn [List.rev].
    rewrite <- !app_assoc. reflexivity. }
  rewrite E, (drop_while_app_all _ (List.rev F)) by (apply Forall_rev; exact HF).
  assert (HQ : Forall (fun c => negb (is_sep c) = true) (List.rev P))
    by (apply Forall_rev; exact HP).
  destruct (List.rev P) as [|c Q] eqn:HrP.
  { exfalso. apply Hne. rewrite <- (rev_involutive P), HrP. reflexivity. }
  apply Forall_cons_iff in HQ as [Hc HQ].
  cbn [drop_while]. change (negb (is_sep "/"%char)) with false. cbn iota.
  assert (Hex : existsb (fun c0 => negb (is_sep c0))
                 (List.rev ("/"%char :: (c :: Q) ++ "/"%char :: List.rev R)) = true).
  { apply existsb_exists. exists c. split; [|exact Hc].
    apply in_rev. rewrite rev_involutive. right. left. reflexivity. }
  rewrite Hex, !rev_involutive. cbn [drop_while]. change (is_sep "/"%char) with true.
  cbn iota. cbn [app drop_while].
  assert (Hs : is_sep c = false) by (destruct (is_sep c); [discriminate Hc|reflexivity]).
  rewrite Hs. cbn iota.
  rewrite app_comm_cons, (take_while_app_all _ (c :: Q)) by (constructor; assumption).
  cbn [take_while]. change (negb (is_sep "/"%char)) with false. cbn iota.
  rewrite app_nil_r, <- HrP, rev_involutive. reflexivity.
Qed.

(** X23: the repository a file event is charged to is the name of the
    directory that directly contains the file: for a path
    [root/parent/file] with [parent] nonempty and neither [parent] nor
    [file] containing a slash, it is [parent], however deep [root] is; so a
    change in a subdirectory of a repository is reported under the
    subdirectory's name. *)
Theorem repo_of_path_parent root parent file :
  parent <> EmptyString ->
  ~ In "/"%char (String.list_ascii_of_string parent) ->
  ~ In "/"%char (String.list_ascii_of_string file) ->
  repo_of_path (root +:+ "/" +:+ parent +:+ "/" +:+ file) = parent.
Proof.
  intros Hne Hp Hf. unfold repo_of_path.
  rewrite !list_ascii_of_string_append. cbn [String.list_ascii_of_string app].
  rewrite basename_dirname_parent.
  - apply String.string_of_list_ascii_of_string.
  - intros He. apply Hne. destruct parent; [reflexivity|discriminate He].
  - apply noslash_forall, Hp.
  - apply noslash_forall, Hf.
Qed.

Lemma repo_of_path_parent_witness :
  "src"%string <> EmptyString /\
  ~ In "/"%char (String.list_ascii_of_string "src") /\
  ~ In "/"%char (String.list_ascii_of_string "a.py") /\
  repo_of_path ("/app/codebase/demo" +:+ "/" +:+ "src" +:+ "/" +:+ "a.py") = "src"%string.
Proof.
  assert (H1 : "src"%string <> EmptyString) by discriminate.
  assert (H2 : ~ In "/"%char (String.list_ascii_of_string "src")) by (cbn; intuition discriminate).
  assert (H3 : ~ In "/"%char (String.list_ascii_of_string "a.py")) by (cbn; intuition discriminate).
  exact (conj H1 (conj H2 (conj H3 (repo_of_path_parent "/app/codebase/demo" "src" "a.py" H1 H2 H3)))).
Defined.
